(** * config_models: database-backed configuration with a read-through cache

    A shallow embedding of [config_models/models.py]: the abstract
    [ConfigurationModel] class and its manager [ConfigurationModelManager].

    The table of a concrete subtype is a list of rows in insertion order,
    the Django cache is a finite map from key strings to entries with an
    expiry time, and every method is a function in a state-and-exception
    monad over the pair (table, cache).  The wall clock is an explicit
    argument [now] of each operation. *)

From Stdlib Require Import Ascii.
From stdpp Require Import gmap strings list fin_maps sorting pretty.

Open Scope Z_scope.

(** ** Python values and objects *)

(** Field values: [None], booleans, integers (also used for timestamps and
    for the primary key of the referenced user) and text. *)
Inductive value :=
  | VNone
  | VBool (b : bool)
  | VInt (n : Z)
  | VStr (s : string).

#[global] Instance value_eq_dec : EqDecision value.
Proof. solve_decision. Defined.

(** [unicode(arg)], as used when a cache key is built. *)
Definition unicode (v : value) : string :=
  match v with
  | VNone => "None"
  | VBool true => "True"
  | VBool false => "False"
  | VInt n => pretty n
  | VStr s => s
  end.

(** Python's [==] on these values: a boolean is the integer 1 or 0, and
    values of different kinds are otherwise unequal. *)
Definition as_number (v : value) : option Z :=
  match v with
  | VBool b => Some (if b then 1 else 0)
  | VInt n => Some n
  | _ => None
  end.

Definition py_eq (a b : value) : bool :=
  match a, b with
  | VNone, VNone => true
  | VStr s, VStr t => bool_decide (s = t)
  | (VBool _ | VInt _), (VBool _ | VInt _) => bool_decide (as_number a = as_number b)
  | _, _ => false
  end.

(** A model instance is its attribute dictionary. *)
Abbreviation instance := (gmap string value) (only parsing).

(** What a cache slot or a query can hand back: a model instance, a list of
    tuples ([values_list]) or a flat list ([values_list(flat=True)]). *)
Inductive pyobj :=
  | PInst (i : instance)
  | PTuples (l : list (list value))
  | PFlat (l : list value).

#[global] Instance pyobj_eq_dec : EqDecision pyobj.
Proof. solve_decision. Defined.

Inductive exn :=
  | TypeError
  | ValueError
  | AttributeError
  | AssertionError
  | FieldError.

#[global] Instance exn_eq_dec : EqDecision exn.
Proof. solve_decision. Defined.

Inductive result (A : Type) :=
  | Ok (a : A)
  | Raise (e : exn).
Arguments Ok {A} a.
Arguments Raise {A} e.

#[global] Instance result_ret : MRet result := λ A a, Ok a.
#[global] Instance result_bind : MBind result := λ A B f m,
  match m with
  | Ok a => f a
  | Raise e => Raise e
  end.
#[global] Instance result_fmap : FMap result := λ A B f m,
  match m with
  | Ok a => Ok (f a)
  | Raise e => Raise e
  end.

(** [getattr(self, name)]. *)
Definition getattr (self : instance) (name : string) : result value :=
  match self !! name with
  | Some v => Ok v
  | None => Raise AttributeError
  end.
Arguments getattr : simpl never.

(** ** Model classes *)

(** The kinds of field the subtypes declare, as far as their columns
    differ in what they store. *)
Inductive column_kind :=
  | AutoField
  | DateTimeField
  | ForeignKey
  | BooleanField
  | IntegerField
  | CharField (max_length : nat)
  | ManyToManyField.

#[global] Instance column_kind_eq_dec : EqDecision column_kind.
Proof. solve_decision. Defined.

Record Field := {
  name : string;
  many_to_many : bool;
  field_default : value;
  column : column_kind;
  null : bool
}.

#[global] Instance Field_eq_dec : EqDecision Field.
Proof. solve_decision. Defined.

(** The columns every subtype inherits from [ConfigurationModel], after the
    automatic primary key. *)
Definition base_fields : list Field :=
  [ {| name := "id"; many_to_many := false; field_default := VNone;
       column := AutoField; null := false |};
    {| name := "change_date"; many_to_many := false; field_default := VNone;
       column := DateTimeField; null := false |};
    {| name := "changed_by"; many_to_many := false; field_default := VNone;
       column := ForeignKey; null := true |};
    {| name := "enabled"; many_to_many := false; field_default := VBool false;
       column := BooleanField; null := false |} ].

(** A concrete subtype: its class name, [KEY_FIELDS], [cache_timeout] and the
    fields it declares itself. *)
Record Model := {
  __name__ : string;
  KEY_FIELDS : list string;
  cache_timeout : Z;
  own_fields : list Field
}.

(** [cls._meta.get_fields()]. *)
Definition get_fields (cls : Model) : list Field :=
  base_fields ++ own_fields cls.

(** Names of the fields that are table columns (everything but the
    many-to-many relations). *)
Definition concrete_names (cls : Model) : list string :=
  name <$> filter (λ f, many_to_many f = false) (get_fields cls).

Definition to_many_names (cls : Model) : list string :=
  name <$> filter (λ f, many_to_many f = true) (get_fields cls).

(** The attribute dictionary of [cls()] called without arguments. *)
Definition defaults (cls : Model) : instance :=
  list_to_map ((λ f, (name f, field_default f)) <$>
               filter (λ f, many_to_many f = false) (get_fields cls)).

(** Python's [dict(pairs)]: a later pair overrides an earlier one. *)
Definition dict (pairs : list (string * value)) : gmap string value :=
  foldl (λ m kv, <[kv.1 := kv.2]> m) ∅ pairs.

(** Python's [zip]: stops at the shorter sequence. *)
Fixpoint zip {A B} (l : list A) (k : list B) : list (A * B) :=
  match l, k with
  | a :: l', b :: k' => (a, b) :: zip l' k'
  | _, _ => []
  end.

(** [cls] called with keyword arguments: a keyword that names a many-to-many
    relation cannot be set on an unsaved instance, a keyword that names no field is refused,
    every other field takes the keyword's value or its default. *)
Definition check_kwarg (cls : Model) (k : string) : result unit :=
  if decide (k ∈ concrete_names cls) then Ok ()
  else if decide (k ∈ to_many_names cls) then Raise ValueError
  else Raise TypeError.

Fixpoint check_kwargs (cls : Model) (ks : list string) : result unit :=
  match ks with
  | [] => Ok ()
  | k :: ks' => check_kwarg cls k ≫= λ _, check_kwargs cls ks'
  end.

Definition construct (cls : Model) (kwargs : gmap string value) : result instance :=
  check_kwargs cls (map_to_list kwargs).*1 ≫= λ _,
  Ok (kwargs ∪ defaults cls).

(** ** The table *)

Record Row := {
  row_id : Z;
  row_date : Z;
  row_cols : gmap string value
}.

#[global] Instance Row_eq_dec : EqDecision Row.
Proof. solve_decision. Defined.

(** The instance the ORM builds from a stored row. *)
Definition from_db (r : Row) : instance :=
  <["id" := VInt (row_id r)]> (<["change_date" := VInt (row_date r)]> (row_cols r)).

(** The value of a column of a row ([NULL] is [None]). *)
Definition row_attr (r : Row) (col : string) : value :=
  default VNone (from_db r !! col).

(** The storage layer numbers rows upwards: a new row gets an identifier
    above every identifier in the table. *)
Definition next_id (table : list Row) : Z :=
  1 + foldr Z.max 0 (row_id <$> table).

(** What a column stores and hands back unchanged: a value of the kind the
    field declares ([None] where the field allows it).  Any other value the
    database adapts to the column or refuses. *)
Definition stores (c : column_kind) (v : value) : bool :=
  match c, v with
  | AutoField, VInt n => bool_decide (0 < n)
  | DateTimeField, VInt _ => true
  | ForeignKey, VInt _ => true
  | BooleanField, VBool _ => true
  | IntegerField, VInt n => bool_decide (-2147483648 ≤ n ≤ 2147483647)
  | CharField max_length, VStr s => bool_decide (String.length s ≤ max_length)%nat
  | _, _ => false
  end.

Definition stored_unchanged (f : Field) (v : value) : bool :=
  match v with
  | VNone => null f
  | _ => stores (column f) v
  end.

(** [INSERT]: the columns of the subtype are copied from the instance, the
    identifier is fresh and [change_date] is the time of the insert
    ([auto_now_add=True]).  The values are kept as they are, which is what
    the database does with the values that [stored_unchanged] admits; what
    is read back is stated for such values only. *)
Definition insert_row (cls : Model) (self : instance) (now : Z) (table : list Row) : Row :=
  {| row_id := next_id table;
     row_date := now;
     row_cols := filter (λ kv, kv.1 ∈ concrete_names cls) self |}.

(** [filter] with the keyword arguments [key_dict]. *)
Definition matches (key_dict : gmap string value) (r : Row) : Prop :=
  map_Forall (λ k v, row_attr r k = v) key_dict.

#[global] Instance matches_dec key_dict r : Decision (matches key_dict r).
Proof. unfold matches. apply _. Defined.

(** [ORDER BY change_date DESC].  SQL leaves the order of rows with equal
    [change_date] to the database; a backend is any function that returns its
    input rearranged with the dates in descending order. *)
Definition newer_or_equal (a b : Row) : Prop := row_date b ≤ row_date a.

Class Backend := {
  order_by_change_date_desc : list Row → list Row;
  order_by_permutation : ∀ rows, order_by_change_date_desc rows ≡ₚ rows;
  order_by_sorted : ∀ rows,
    StronglySorted newer_or_equal (order_by_change_date_desc rows)
}.

(** ** The cache *)

Record CacheEntry := {
  cached : pyobj;
  expires : Z
}.

Record State := {
  table : list Row;
  cache : gmap string CacheEntry
}.

(** [cache.get(key)]: an entry is served strictly before its expiry time. *)
Definition cache_get (now : Z) (key : string) (c : gmap string CacheEntry) : option pyobj :=
  match c !! key with
  | Some e => if decide (now < expires e) then Some (cached e) else None
  | None => None
  end.

(** [cache.set(key, value, timeout)]. *)
Definition cache_set (now : Z) (key : string) (v : pyobj) (timeout : Z)
    (c : gmap string CacheEntry) : gmap string CacheEntry :=
  <[key := {| cached := v; expires := now + timeout |}]> c.

(** [cache.delete(key)]. *)
Definition cache_delete (key : string) (c : gmap string CacheEntry) : gmap string CacheEntry :=
  delete key c.

(** ** The monad of the methods: state passing with exceptions *)

Definition M (A : Type) : Type := State → result A * State.

#[global] Instance M_ret : MRet M := λ A a st, (Ok a, st).
#[global] Instance M_bind : MBind M := λ A B f m st,
  match m st with
  | (Ok a, st') => f a st'
  | (Raise e, st') => (Raise e, st')
  end.

Definition raise {A} (e : exn) : M A := λ st, (Raise e, st).
Definition lift {A} (r : result A) : M A := λ st, (r, st).
Definition get_table : M (list Row) := λ st, (Ok (table st), st).
Definition put_table (t : list Row) : M unit :=
  λ st, (Ok (), {| table := t; cache := cache st |}).
Definition get_cache : M (gmap string CacheEntry) := λ st, (Ok (cache st), st).
Definition put_cache (c : gmap string CacheEntry) : M unit :=
  λ st, (Ok (), {| table := table st; cache := c |}).

(** Python truthiness, for [if flat] inside [values_list]. *)
Definition truthy (v : value) : bool :=
  match v with
  | VNone => false
  | VBool b => b
  | VInt n => bool_decide (n ≠ 0)
  | VStr s => bool_decide (s ≠ "")
  end.

(** SQL [DISTINCT] on a list of tuples: each tuple once, at the place of
    its first occurrence. *)
Definition distinct {A} `{EqDecision A} (l : list A) : list A :=
  reverse (remove_dups (reverse l)).

(** SQL [MAX] over a column: [NULL] on no rows. *)
Definition sql_max (ids : list Z) : option Z :=
  match ids with
  | [] => None
  | n :: ids' => Some (foldr Z.max n ids')
  end.

(** ** The methods of [ConfigurationModelManager] and [ConfigurationModel] *)

Section methods.
Context `{B : Backend} (cls : Model).

(** [cls.objects.filter] with keyword arguments: a keyword that is not a
    column of the table cannot be resolved. *)
Definition objects_filter (key_dict : gmap string value) : M (list Row) :=
  if decide (map_Forall (λ k _, k ∈ concrete_names cls) key_dict) then
    t ← get_table; mret (filter (matches key_dict) t)
  else raise FieldError.

(** The values of the key fields of a row. *)
Definition key_of (r : Row) : list value := row_attr r <$> KEY_FIELDS cls.

(** [ConfigurationModelManager._current_ids_subquery], evaluated on the
    table: [SELECT MAX(id) FROM table GROUP BY key_fields]. *)
Definition _current_ids_subquery (t : list Row) : list Z :=
  omap (λ g, sql_max (row_id <$> filter (λ r, key_of r = g) t))
       (remove_dups (key_of <$> t)).

(** [ConfigurationModelManager.current_set]: the rows whose id the subquery
    selects, each annotated with [is_active = 1], in the default ordering of
    the model ([-change_date]). *)
Definition current_set : M (list instance) :=
  if decide (KEY_FIELDS cls ≠ []) then
    t ← get_table;
    mret ((λ r, <["is_active" := VInt 1]> (from_db r)) <$>
          order_by_change_date_desc
            (filter (λ r, row_id r ∈ _current_ids_subquery t) t))
  else raise AssertionError.

(** [ConfigurationModel.cache_key_name]. *)
Definition cache_key_name (args : list value) : result string :=
  if decide (KEY_FIELDS cls ≠ []) then
    if decide (length args ≠ length (KEY_FIELDS cls)) then Raise TypeError
    else Ok ("configuration/" +:+ __name__ cls +:+ "/current/"
             +:+ String.concat "," (unicode <$> args))
  else Ok ("configuration/" +:+ __name__ cls +:+ "/current").

(** [ConfigurationModel.key_values_cache_key_name]. *)
Definition key_values_cache_key_name (key_fields : list string) : string :=
  let key_fields := if decide (key_fields = []) then KEY_FIELDS cls else key_fields in
  "configuration/" +:+ __name__ cls +:+ "/key_values/" +:+ String.concat "," key_fields.

(** [ConfigurationModel.save], called with its default arguments: the
    primary key is cleared, the row is inserted, and the cache entries are
    deleted.  The result is [self] as the call leaves it. *)
Definition save (self : instance) (now : Z) : M instance :=
  let self := <["id" := VNone]> self in
  t ← get_table;
  let row := insert_row cls self now t in
  put_table (t ++ [row]);;
  let self := <["id" := VInt (row_id row)]> (<["change_date" := VInt now]> self) in
  keys ← lift (mapM (getattr self) (KEY_FIELDS cls));
  key ← lift (cache_key_name keys);
  c ← get_cache;
  put_cache (cache_delete key c);;
  (if decide (KEY_FIELDS cls ≠ []) then
     c ← get_cache;
     put_cache (cache_delete (key_values_cache_key_name []) c)
   else mret ());;
  mret self.

(** [ConfigurationModel.current]. *)
Definition current (args : list value) (now : Z) : M pyobj :=
  key ← lift (cache_key_name args);
  c ← get_cache;
  match cache_get now key c with
  | Some hit => mret hit
  | None =>
      let key_dict := dict (zip (KEY_FIELDS cls) args) in
      rows ← objects_filter key_dict;
      cur ← match order_by_change_date_desc rows with
            | r :: _ => mret (from_db r)
            | [] => lift (construct cls key_dict)
            end;
      key ← lift (cache_key_name args);
      c ← get_cache;
      put_cache (cache_set now key (PInst cur) (cache_timeout cls) c);;
      mret (PInst cur)
  end.

(** Attribute access on whatever [current] returned. *)
Definition attr_of (o : pyobj) (name : string) : result value :=
  match o with
  | PInst i => getattr i name
  | _ => Raise AttributeError
  end.

(** [ConfigurationModel.is_enabled]. *)
Definition is_enabled (key_fields : list value) (now : Z) : M value :=
  cur ← current key_fields now;
  lift (attr_of cur "enabled").

(** [values_list(fields..., flat=flat).order_by().distinct()], materialised
    by [list]: without field names every column is selected; [flat] is refused
    for more than one field and otherwise keeps the first column.  Distinct
    tuples are listed in the order of their first row in the table (the
    order is the database's choice; nothing stated below depends on it). *)
Definition values_list_distinct (fields : list string) (flat : bool) : M pyobj :=
  if flat && bool_decide (1 < length fields)%nat then raise TypeError
  else
    let cols := if decide (fields = []) then concrete_names cls else fields in
    if decide (Forall (λ f, f ∈ concrete_names cls) cols) then
      t ← get_table;
      let tuples := distinct ((λ r, row_attr r <$> cols) <$> t) in
      mret (if flat then PFlat ((λ tup, default VNone (head tup)) <$> tuples)
            else PTuples tuples)
    else raise FieldError.

(** [ConfigurationModel.key_values]. *)
Definition key_values (key_fields : list string) (kwargs : gmap string value)
    (now : Z) : M pyobj :=
  let flat := truthy (default (VBool false) (kwargs !! "flat")) in
  let kwargs := delete "flat" kwargs in
  if decide (kwargs ≠ ∅) then raise AssertionError
  else
    let key_fields := if decide (key_fields = []) then KEY_FIELDS cls else key_fields in
    let cache_key := key_values_cache_key_name key_fields in
    c ← get_cache;
    match cache_get now cache_key c with
    | Some hit => mret hit
    | None =>
        values ← values_list_distinct key_fields flat;
        c ← get_cache;
        put_cache (cache_set now cache_key values (cache_timeout cls) c);;
        mret values
    end.

(** [ConfigurationModel.fields_equal]: the loop over [get_fields()], leaving
    at the first field that differs. *)
Fixpoint fields_equal_loop (fields : list Field) (self inst : instance)
    (fields_to_ignore : list string) : result bool :=
  match fields with
  | [] => Ok true
  | field :: rest =>
      if negb (many_to_many field) && bool_decide (name field ∉ fields_to_ignore) then
        a ← getattr inst (name field);
        b ← getattr self (name field);
        if negb (py_eq a b) then Ok false
        else fields_equal_loop rest self inst fields_to_ignore
      else fields_equal_loop rest self inst fields_to_ignore
  end.

Definition fields_equal (self inst : instance) (fields_to_ignore : list string)
    : result bool :=
  fields_equal_loop (get_fields cls) self inst fields_to_ignore.

(** [ConfigurationModel.equal_to_current]: the to-many relations are popped
    from [json] before the candidate is built. *)
Definition equal_to_current (json : gmap string value)
    (fields_to_ignore : list string) (now : Z) : M bool :=
  let json := foldr delete json (to_many_names cls) in
  new_instance ← lift (construct cls json);
  key_field_args ← lift (mapM (getattr new_instance) (KEY_FIELDS cls));
  cur ← current key_field_args now;
  id ← lift (attr_of cur "id");
  if decide (id ≠ VNone) then
    match cur with
    | PInst c => lift (fields_equal c new_instance fields_to_ignore)
    | _ => raise AttributeError
    end
  else mret false.

End methods.

(** The default of the [fields_to_ignore] argument. *)
Definition default_fields_to_ignore : list string :=
  ["id"; "change_date"; "changed_by"].

(** The default of [cache_timeout], in seconds. *)
Definition default_cache_timeout : Z := 600.

(** ** The annotated listing and sequences of calls *)

Section listing.
Context `{B : Backend} (cls : Model).

(** A row as a listing returns it, with the truth value of the selected
    SQL expression in [is_active]. *)
Definition annotated (active : Row → bool) (r : Row) : instance :=
  <["is_active" := VBool (active r)]> (from_db r).

(** [ConfigurationModelManager.with_active_flag], evaluated at once, in the
    default ordering of the model.  With [KEY_FIELDS] the flag is
    [id IN (subquery)].  Without, the flag is [id = pk] for the [pk] of
    [current()], written into the SQL text: an integer makes a comparison
    with the key; for [None] the text is [id = None], which the database
    refuses ([None] is the result). *)
Definition with_active_flag (now : Z) : M (option (list instance)) :=
  if decide (KEY_FIELDS cls ≠ []) then
    t ← get_table;
    let ids := _current_ids_subquery cls t in
    mret (Some (annotated (λ r, bool_decide (row_id r ∈ ids))
                  <$> order_by_change_date_desc t))
  else
    cur ← current cls [] now;
    pk ← lift (attr_of cur "id");
    match pk with
    | VInt n =>
        t ← get_table;
        mret (Some (annotated (λ r, bool_decide (row_id r = n))
                      <$> order_by_change_date_desc t))
    | _ => mret None
    end.

(** The calls a client can make on a subtype. *)
Inductive call :=
  | CallSave (self : instance) (now : Z)
  | CallCurrent (args : list value) (now : Z)
  | CallIsEnabled (args : list value) (now : Z)
  | CallKeyValues (key_fields : list string) (kwargs : gmap string value) (now : Z)
  | CallEqualToCurrent (json : gmap string value) (fields_to_ignore : list string)
      (now : Z)
  | CallCurrentSet
  | CallWithActiveFlag (now : Z).

(** The state a call leaves, whether it returns or raises. *)
Definition after (c : call) (st : State) : State :=
  match c with
  | CallSave self now => (save cls self now st).2
  | CallCurrent args now => (current cls args now st).2
  | CallIsEnabled args now => (is_enabled cls args now st).2
  | CallKeyValues key_fields kwargs now => (key_values cls key_fields kwargs now st).2
  | CallEqualToCurrent json ignore now => (equal_to_current cls json ignore now st).2
  | CallCurrentSet => (current_set cls st).2
  | CallWithActiveFlag now => (with_active_flag now st).2
  end.

(** The state after a sequence of calls on an empty table and cache. *)
Definition after_calls (cs : list call) : State :=
  foldl (λ st c, after c st) {| table := []; cache := ∅ |} cs.

End listing.

(** ** Two databases *)

(** Rows with equal dates in the order they were inserted. *)
Definition older_first_on_ties (a b : Row) : Prop :=
  row_date b < row_date a ∨ (row_date b = row_date a ∧ row_id a ≤ row_id b).

(** Rows with equal dates by descending id. *)
Definition newer_first_on_ties (a b : Row) : Prop :=
  row_date b < row_date a ∨ (row_date b = row_date a ∧ row_id b ≤ row_id a).

#[global] Instance older_first_on_ties_dec a b : Decision (older_first_on_ties a b).
Proof. unfold older_first_on_ties. apply _. Defined.

#[global] Instance newer_first_on_ties_dec a b : Decision (newer_first_on_ties a b).
Proof. unfold newer_first_on_ties. apply _. Defined.

#[global] Instance older_first_on_ties_trans : Transitive older_first_on_ties.
Proof. unfold older_first_on_ties. intros a b c; lia. Qed.

#[global] Instance older_first_on_ties_total : Total older_first_on_ties.
Proof. unfold older_first_on_ties. intros a b; lia. Qed.

#[global] Instance newer_first_on_ties_trans : Transitive newer_first_on_ties.
Proof. unfold newer_first_on_ties. intros a b c; lia. Qed.

#[global] Instance newer_first_on_ties_total : Total newer_first_on_ties.
Proof. unfold newer_first_on_ties. intros a b; lia. Qed.

Lemma StronglySorted_weaken {A} (R1 R2 : relation A) (l : list A) :
  (∀ a b, R1 a b → R2 a b) → StronglySorted R1 l → StronglySorted R2 l.
Proof.
  intros Himp Hs. induction Hs as [|x l Hs IH Hall]; constructor; [exact IH|].
  eapply Forall_impl; [exact Hall|]. intros y Hy. by apply Himp.
Qed.

Definition insertion_order_backend : Backend.
Proof.
  refine {| order_by_change_date_desc := merge_sort older_first_on_ties |}.
  - intros rows. apply merge_sort_Permutation.
  - intros rows. eapply StronglySorted_weaken; [|apply StronglySorted_merge_sort; apply _].
    unfold older_first_on_ties, newer_or_equal. intros a b; lia.
Defined.

Definition newest_id_backend : Backend.
Proof.
  refine {| order_by_change_date_desc := merge_sort newer_first_on_ties |}.
  - intros rows. apply merge_sort_Permutation.
  - intros rows. eapply StronglySorted_weaken; [|apply StronglySorted_merge_sort; apply _].
    unfold newer_first_on_ties, newer_or_equal. intros a b; lia.
Defined.

(** ** Three subtypes used in the examples *)

(** Keyed on one field. *)
Definition CourseConfig : Model :=
  {| __name__ := "CourseConfig";
     KEY_FIELDS := ["course_id"];
     cache_timeout := default_cache_timeout;
     own_fields :=
       [ {| name := "course_id"; many_to_many := false; field_default := VStr "";
            column := CharField 255; null := false |};
         {| name := "limit"; many_to_many := false; field_default := VInt 0;
            column := IntegerField; null := false |};
         {| name := "tags"; many_to_many := true; field_default := VNone;
            column := ManyToManyField; null := false |} ] |}.

(** Keyed on two fields. *)
Definition Embargo : Model :=
  {| __name__ := "Embargo";
     KEY_FIELDS := ["country"; "course"];
     cache_timeout := default_cache_timeout;
     own_fields :=
       [ {| name := "country"; many_to_many := false; field_default := VStr "";
            column := CharField 255; null := false |};
         {| name := "course"; many_to_many := false; field_default := VStr "";
            column := CharField 255; null := false |} ] |}.

(** Not keyed. *)
Definition SiteConfig : Model :=
  {| __name__ := "SiteConfig";
     KEY_FIELDS := [];
     cache_timeout := default_cache_timeout;
     own_fields :=
       [ {| name := "banner"; many_to_many := false; field_default := VStr "";
            column := CharField 255; null := false |} ] |}.

Definition empty_state : State := {| table := []; cache := ∅ |}.

(** ** Vocabulary of the statements *)

(** The rows [current] selects from: those that match the key dictionary. *)
Definition lookup_rows (cls : Model) (args : list value) (t : list Row) : list Row :=
  filter (matches (dict (zip (KEY_FIELDS cls) args))) t.

(** What a miss resolves to: the first row in descending date order, or a
    fresh instance built from the key dictionary. *)
Definition resolved `{B : Backend} (cls : Model) (args : list value) (t : list Row)
    : instance :=
  match order_by_change_date_desc (lookup_rows cls args t) with
  | r :: _ => from_db r
  | [] => dict (zip (KEY_FIELDS cls) args) ∪ defaults cls
  end.

(** The key string [cache_key_name] builds when it does not raise. *)
Definition current_key (cls : Model) (args : list value) : string :=
  if decide (KEY_FIELDS cls ≠ []) then
    "configuration/" +:+ __name__ cls +:+ "/current/"
      +:+ String.concat "," (unicode <$> args)
  else "configuration/" +:+ __name__ cls +:+ "/current".

(** Field names are identifiers: they hold no comma, so that joining them
    with commas loses nothing. *)
Fixpoint has_comma (s : string) : bool :=
  match s with
  | EmptyString => false
  | String c s' => if decide (c = ","%char) then true else has_comma s'
  end.

(** [self] as [save] leaves it: the fresh identifier and the insert time. *)
Definition saved (self : instance) (now : Z) (t : list Row) : instance :=
  <["id" := VInt (next_id t)]> (<["change_date" := VInt now]> (<["id" := VNone]> self)).

(** The key tuple of an instance. *)
Definition key_args (cls : Model) (self : instance) : list value :=
  (λ k, default VNone (self !! k)) <$> KEY_FIELDS cls.

(** The cache once [save] has deleted its entries. *)
Definition evicted (cls : Model) (self : instance) (c : gmap string CacheEntry)
    : gmap string CacheEntry :=
  if decide (KEY_FIELDS cls ≠ []) then
    delete (key_values_cache_key_name cls [])
           (delete (current_key cls (key_args cls self)) c)
  else delete (current_key cls (key_args cls self)) c.

Definition flat_of (kwargs : gmap string value) : bool :=
  truthy (default (VBool false) (kwargs !! "flat")).

(** Rows of the examples. *)
Definition embargo_row (id date : Z) (country course : string) (on : bool) : Row :=
  {| row_id := id; row_date := date;
     row_cols := <["country" := VStr country]> (<["course" := VStr course]>
                   (<["enabled" := VBool on]> (defaults Embargo))) |}.

Definition course_row (id date : Z) (course_id : string) (on : bool) : Row :=
  {| row_id := id; row_date := date;
     row_cols := <["course_id" := VStr course_id]>
                   (<["enabled" := VBool on]> (defaults CourseConfig)) |}.

(** An instance of the subtype has a value for every column. *)
Definition complete (cls : Model) (i : instance) : Prop :=
  Forall (λ k, is_Some (i !! k)) (concrete_names cls).

#[global] Instance complete_dec cls i : Decision (complete cls i).
Proof. unfold complete. apply _. Defined.

(** The fields the loop compares. *)
Definition compared (ignore : list string) (f : Field) : Prop :=
  many_to_many f = false ∧ name f ∉ ignore.

#[global] Instance compared_dec ignore f : Decision (compared ignore f).
Proof. unfold compared. apply _. Defined.

(** The key fields are distinct columns that the subtype declares itself. *)
Definition well_formed (cls : Model) : Prop :=
  NoDup (KEY_FIELDS cls)
  ∧ Forall (λ k, k ∈ concrete_names cls ∧ k ∉ name <$> base_fields) (KEY_FIELDS cls).

#[global] Instance well_formed_dec cls : Decision (well_formed cls).
Proof. unfold well_formed. apply _. Defined.

(** Two instances of [CourseConfig] for course X. *)
Definition course_on : instance :=
  <["course_id" := VStr "X"]> (<["enabled" := VBool true]> (defaults CourseConfig)).

Definition course_off : instance :=
  <["course_id" := VStr "X"]> (<["enabled" := VBool false]> (defaults CourseConfig)).

(** Two writes at the same clock reading. *)
Definition same_instant_writes : State :=
  (save CourseConfig course_off 10 (save CourseConfig course_on 10 empty_state).2).2.

(** Two writes, the second from a clock that is behind the first. *)
Definition skewed_clock_writes : State :=
  (save CourseConfig course_off 5 (save CourseConfig course_on 10 empty_state).2).2.

(** One write at clock reading 10. *)
Definition one_write : State := (save CourseConfig course_on 10 empty_state).2.

(** Every stored row has all the columns of the subtype. *)
Definition table_complete (cls : Model) (st : State) : Prop :=
  ∀ r, r ∈ table st → complete cls (from_db r).

(** Under a key that [cache_key_name] can build the cache holds an instance
    of the subtype that is either unsaved ([id] is [None]) or a stored row. *)
Definition cache_sound (cls : Model) (st : State) : Prop :=
  ∀ args e, cache st !! current_key cls args = Some e →
    ∃ i, cached e = PInst i ∧ complete cls i
         ∧ (i !! "id" = Some VNone ∨ ∃ r, r ∈ table st ∧ i = from_db r).

Definition state_ok (cls : Model) (st : State) : Prop :=
  table_complete cls st ∧ cache_sound cls st.

(** An embargo for the country "Korea, Republic of". *)
Definition embargo_korea : instance :=
  <["country" := VStr "Korea, Republic of"]>
    (<["course" := VStr "c1"]> (<["enabled" := VBool true]> (defaults Embargo))).

(** The embargo is written; [current] is asked for another tuple that joins
    to the same key string and has no row; [key_values] is called. *)
Definition aliased_lookup : State :=
  (key_values Embargo [] ∅ 12
     (@current insertion_order_backend Embargo [VStr "Korea"; VStr " Republic of,c1"] 11
        (save Embargo embargo_korea 10 empty_state).2).2).2.

(** A call that a client holding instances of the subtype can make: what
    is saved has a value for every column. *)
Definition call_ok (cls : Model) (c : call) : Prop :=
  match c with
  | CallSave self _ => complete cls self
  | _ => True
  end.

(** The value of an attribute of an instance of the subtype. *)
Definition attr (i : instance) (k : string) : value := default VNone (i !! k).

(** An instance whose values the columns store unchanged: every column but
    [id] and [change_date], which [save] sets, holds a value of its kind. *)
Definition typed (cls : Model) (self : instance) : Prop :=
  Forall (λ f, many_to_many f = false → name f ∉ ["id"; "change_date"] →
               match self !! name f with
               | Some v => stored_unchanged f v = true
               | None => False
               end) (get_fields cls).

#[global] Instance typed_dec cls self : Decision (typed cls self).
Proof.
  unfold typed. apply Forall_dec. intros f. apply impl_dec; [apply _|].
  apply impl_dec; [apply _|]. destruct (self !! name f); apply _.
Defined.

(** Two key tuples that Python finds equal. *)
Definition same_key (t1 t2 : list value) : Prop :=
  Forall2 (λ a b, py_eq a b = true) t1 t2.

(** A stored row with the highest id among the rows of its key tuple. *)
Definition newest_of_key (cls : Model) (t : list Row) (r : Row) : Prop :=
  r ∈ t ∧ ∀ r', r' ∈ t → key_of cls r' = key_of cls r → row_id r' ≤ row_id r.

(** A key value that is text without a comma. *)
Definition plain_text (v : value) : Prop :=
  match v with
  | VStr s => has_comma s = false
  | _ => False
  end.

(** What [current] returns, as a function of the table and the cache. *)
Definition current_result `{B : Backend} (cls : Model) (args : list value) (now : Z)
    (t : list Row) (c : gmap string CacheEntry) : result pyobj :=
  key ← cache_key_name cls args;
  match cache_get now key c with
  | Some hit => Ok hit
  | None =>
      let key_dict := dict (zip (KEY_FIELDS cls) args) in
      if decide (map_Forall (λ k _, k ∈ concrete_names cls) key_dict) then
        match order_by_change_date_desc (filter (matches key_dict) t) with
        | r :: _ => Ok (PInst (from_db r))
        | [] => PInst <$> construct cls key_dict
        end
      else Raise FieldError
  end.

(** What [key_values] returns, as a function of the table and the cache. *)
Definition key_values_result (cls : Model) (fs : list string)
    (kwargs : gmap string value) (now : Z) (t : list Row)
    (c : gmap string CacheEntry) : result pyobj :=
  if decide (delete "flat" kwargs ≠ ∅) then Raise AssertionError
  else
    match cache_get now (key_values_cache_key_name cls fs) c with
    | Some hit => Ok hit
    | None =>
        (values_list_distinct cls (if decide (fs = []) then KEY_FIELDS cls else fs)
           (flat_of kwargs) {| table := t; cache := c |}).1
    end.

(** * Properties *)

(** ** Running the monad *)

Ltac run :=
  unfold mbind, M_bind, mret, M_ret, lift, raise,
    get_cache, put_cache, get_table, put_table; simpl.

Lemma mapM_getattr (self : instance) (ks : list string) :
  Forall (λ k, is_Some (self !! k)) ks →
  mapM (getattr self) ks = Ok ((λ k, default VNone (self !! k)) <$> ks).
Proof.
  induction 1 as [|k ks [v Hv] _ IH]; [done|].
  simpl. rewrite IH. unfold getattr. by rewrite Hv.
Qed.

(** ** Cache key names *)

Lemma append_inj_l (s a b : string) : s +:+ a = s +:+ b → a = b.
Proof. induction s as [|c s IH]; simpl; [done|]. intros [=]. auto. Qed.

Lemma cache_key_name_ok (cls : Model) (args : list value) :
  KEY_FIELDS cls = [] ∨ length args = length (KEY_FIELDS cls) →
  cache_key_name cls args = Ok (current_key cls args).
Proof.
  intros H. unfold cache_key_name, current_key.
  destruct (decide (KEY_FIELDS cls ≠ [])) as [Hne|]; [|done].
  destruct H as [H|H]; [done|]. by rewrite decide_False by lia.
Qed.

Lemma cache_key_name_inv (cls : Model) (args : list value) (key : string) :
  cache_key_name cls args = Ok key → key = current_key cls args.
Proof.
  unfold cache_key_name, current_key.
  destruct (decide (KEY_FIELDS cls ≠ [])); [|congruence].
  destruct (decide _); congruence.
Qed.

Lemma current_key_ne_key_values_key (cls : Model) (args : list value) (fs : list string) :
  current_key cls args ≠ key_values_cache_key_name cls fs.
Proof.
  unfold current_key, key_values_cache_key_name.
  destruct (decide (KEY_FIELDS cls ≠ [])); intros H;
    apply append_inj_l, append_inj_l in H; discriminate H.
Qed.

Lemma has_comma_app (a b : string) : has_comma (a +:+ "," +:+ b) = true.
Proof. induction a as [|c a IH]; simpl; [done|]. by destruct (decide _). Qed.

Lemma first_comma_unique (x y r1 r2 : string) :
  has_comma x = false → has_comma y = false →
  x +:+ "," +:+ r1 = y +:+ "," +:+ r2 → x = y ∧ r1 = r2.
Proof.
  revert y. induction x as [|c x IH]; intros [|d y]; simpl.
  - intros _ _ [=]. done.
  - intros _ Hy [= <- _]. by rewrite decide_True in Hy.
  - intros Hx _ [= -> _]. by rewrite decide_True in Hx.
  - destruct (decide (c = _)); [done|]. destruct (decide (d = _)); [done|].
    intros Hx Hy [= -> H]. destruct (IH y Hx Hy H) as [-> ->]. done.
Qed.

Lemma concat_comma_inj (l1 l2 : list string) :
  Forall (λ s, has_comma s = false) l1 → Forall (λ s, has_comma s = false) l2 →
  l1 ≠ [] → l2 ≠ [] →
  String.concat "," l1 = String.concat "," l2 → l1 = l2.
Proof.
  intros H1. revert l2. induction H1 as [|x l1 Hx H1 IH]; [done|].
  intros l2 H2 _ Hne2 Heq. destruct H2 as [|y l2 Hy H2]; [done|].
  destruct l1 as [|x' l1], l2 as [|y' l2]; simpl in Heq.
  - by subst.
  - subst x. by rewrite has_comma_app in Hx.
  - subst y. by rewrite has_comma_app in Hy.
  - apply first_comma_unique in Heq as [-> Heq]; [|done..].
    f_equal. apply IH; done.
Qed.


(** ** [save] *)

Lemma length_key_args (cls : Model) (self : instance) :
  length (key_args cls self) = length (KEY_FIELDS cls).
Proof. unfold key_args. by rewrite length_fmap. Qed.

Lemma saved_has_keys (self : instance) (now : Z) (t : list Row) (ks : list string) :
  Forall (λ k, is_Some (self !! k)) ks →
  Forall (λ k, is_Some (saved self now t !! k)) ks.
Proof.
  intros H. eapply Forall_impl; [exact H|]. clear H. intros k [v Hv]. unfold saved.
  destruct (decide (k = "id")) as [->|]; [rewrite lookup_insert_eq; eauto|].
  rewrite lookup_insert_ne by done.
  destruct (decide (k = "change_date")) as [->|]; [rewrite lookup_insert_eq; eauto|].
  rewrite !lookup_insert_ne by done. eauto.
Qed.

Lemma save_run (cls : Model) (self : instance) (now : Z) (st : State) :
  Forall (λ k, is_Some (self !! k)) (KEY_FIELDS cls) →
  save cls self now st =
    (Ok (saved self now (table st)),
     {| table := table st ++ [insert_row cls (<["id" := VNone]> self) now (table st)];
        cache := evicted cls (saved self now (table st)) (cache st) |}).
Proof.
  intros Hk. unfold save. run.
  change (<["id" := VInt (next_id (table st))]> _) with (saved self now (table st)).
  rewrite (mapM_getattr _ _ (saved_has_keys _ now (table st) _ Hk)).
  fold (key_args cls (saved self now (table st))).
  rewrite cache_key_name_ok by (right; apply length_key_args).
  unfold evicted, cache_delete. by destruct (decide (KEY_FIELDS cls ≠ [])).
Qed.

Lemma foldr_max_ge (x : Z) (l : list Z) (b : Z) : x ∈ l → x ≤ foldr Z.max b l.
Proof.
  induction l as [|y l IH]; [by intros ?%elem_of_nil|].
  intros [->|H]%elem_of_cons; simpl; [lia|]. specialize (IH H). lia.
Qed.

Lemma next_id_above (t : list Row) (r : Row) : r ∈ t → row_id r < next_id t.
Proof.
  intros H. unfold next_id.
  assert (row_id r ≤ foldr Z.max 0 (row_id <$> t)); [|lia].
  apply foldr_max_ge, list_elem_of_fmap. eauto.
Qed.

(** C4. [save] clears the primary key whatever it was, appends a row with an
    identifier above every stored one and leaves every stored row in place
    (an insert, never an update); then the entry of the instance's key tuple
    is gone from the cache, and the [key_values] entry is deleted when
    [KEY_FIELDS] is non-empty and kept when it is empty. *)
Theorem save_always_inserts (cls : Model) (self : instance) (now : Z) (st : State) :
  Forall (λ k, is_Some (self !! k)) (KEY_FIELDS cls) →
  let row := insert_row cls (<["id" := VNone]> self) now (table st) in
  let self' := saved self now (table st) in
  let key := current_key cls (key_args cls self') in
  let kv := key_values_cache_key_name cls [] in
  ∃ st', save cls self now st = (Ok self', st')
    ∧ (∀ v, save cls (<["id" := v]> self) now st = save cls self now st)
    ∧ table st' = table st ++ [row]
    ∧ (∀ r, r ∈ table st → row_id r < row_id row)
    ∧ self' !! "id" = Some (VInt (row_id row))
    ∧ cache st' !! key = None
    ∧ (KEY_FIELDS cls ≠ [] → cache st' = delete kv (delete key (cache st)))
    ∧ (KEY_FIELDS cls = [] →
         cache st' = delete key (cache st) ∧ cache st' !! kv = cache st !! kv).
Proof.
  intros Hk row self' key kv. eexists. split; [by apply save_run|]. simpl.
  split; [|split; [done|split; [|split; [|split; [|split]]]]].
  - intros v. unfold save. by rewrite insert_insert_eq.
  - intros r Hr. by apply next_id_above.
  - unfold self', saved. by rewrite lookup_insert_eq.
  - unfold evicted. destruct (decide _).
    + rewrite lookup_delete_ne by (symmetry; apply current_key_ne_key_values_key).
      apply lookup_delete_eq.
    + apply lookup_delete_eq.
  - intros Hne. unfold evicted. by rewrite decide_True.
  - intros He. unfold evicted. rewrite decide_False by (by intros []).
    split; [done|]. apply lookup_delete_ne, current_key_ne_key_values_key.
Qed.

(** C5, as the code has it: with non-empty [KEY_FIELDS] a wrong number of
    arguments raises [TypeError] before the cache is consulted; with empty
    [KEY_FIELDS] the arguments are not counted and [current] behaves as
    without them. *)
Theorem current_argument_count `{B : Backend} (cls : Model) (args : list value)
    (now : Z) (st : State) :
  (KEY_FIELDS cls ≠ [] → length args ≠ length (KEY_FIELDS cls) →
     current cls args now st = (Raise TypeError, st))
  ∧ (KEY_FIELDS cls = [] → current cls args now st = current cls [] now st).
Proof.
  split.
  - intros Hne Hlen. unfold current, cache_key_name.
    rewrite decide_True by done. rewrite decide_True by done. done.
  - intros He. unfold current, cache_key_name.
    rewrite !decide_False by (by intros []). rewrite He. done.
Qed.

Lemma save_always_inserts_witness :
  ∃ st', save CourseConfig (from_db {| row_id := 7; row_date := 3;
                                         row_cols := defaults CourseConfig |}) 10
              {| table := [{| row_id := 7; row_date := 3;
                              row_cols := defaults CourseConfig |}];
                 cache := ∅ |}
         = (Ok (saved (from_db {| row_id := 7; row_date := 3;
                                  row_cols := defaults CourseConfig |}) 10
                      [{| row_id := 7; row_date := 3;
                          row_cols := defaults CourseConfig |}]), st')
    ∧ (row_id <$> table st') = [7; 8].
Proof.
  destruct (save_always_inserts CourseConfig
              (from_db {| row_id := 7; row_date := 3; row_cols := defaults CourseConfig |})
              10
              {| table := [{| row_id := 7; row_date := 3;
                              row_cols := defaults CourseConfig |}];
                 cache := ∅ |})
    as (st' & Hsave & _ & Htable & _).
  - repeat constructor; vm_compute; eauto.
  - exists st'. split; [exact Hsave|]. rewrite Htable. reflexivity.
Defined.

Lemma current_argument_count_witness :
  @current insertion_order_backend Embargo [VStr "Italy"] 0 empty_state
  = (Raise TypeError, empty_state).
Proof.
  destruct (@current_argument_count insertion_order_backend Embargo [VStr "Italy"] 0
              empty_state) as [H _].
  apply H; [discriminate | simpl; lia].
Defined.

(** C5 as stated fails when [KEY_FIELDS] is empty: a surplus argument is
    accepted, the lookup goes ahead and its result is cached. *)
Lemma current_unkeyed_surplus_argument :
  length [VStr "surplus"] ≠ length (KEY_FIELDS SiteConfig)
  ∧ @current insertion_order_backend SiteConfig [VStr "surplus"] 0 empty_state
    = (Ok (PInst (defaults SiteConfig)),
       {| table := [];
          cache := {[ "configuration/SiteConfig/current" :=
                        {| cached := PInst (defaults SiteConfig); expires := 600 |} ]} |}).
Proof. split; [simpl; lia|]. vm_compute. reflexivity. Qed.

(** ** [key_values] *)

Lemma key_values_key_default (cls : Model) (fs : list string) :
  key_values_cache_key_name cls (if decide (fs = []) then KEY_FIELDS cls else fs)
  = key_values_cache_key_name cls fs.
Proof.
  unfold key_values_cache_key_name.
  repeat case_decide; congruence.
Qed.

Lemma key_values_hit (cls : Model) (fs : list string) (kwargs : gmap string value)
    (now : Z) (st : State) (v : pyobj) :
  delete "flat" kwargs = ∅ →
  cache_get now (key_values_cache_key_name cls fs) (cache st) = Some v →
  key_values cls fs kwargs now st = (Ok v, st).
Proof.
  intros Hkw Hhit. unfold key_values. rewrite Hkw.
  rewrite decide_False by (by intros []).
  rewrite key_values_key_default. run. by rewrite Hhit.
Qed.

Lemma key_values_miss (cls : Model) (fs : list string) (kwargs : gmap string value)
    (now : Z) (st : State) :
  delete "flat" kwargs = ∅ →
  cache_get now (key_values_cache_key_name cls fs) (cache st) = None →
  key_values cls fs kwargs now st =
    match values_list_distinct cls (if decide (fs = []) then KEY_FIELDS cls else fs)
            (flat_of kwargs) st with
    | (Ok v, st') =>
        (Ok v, {| table := table st';
                  cache := cache_set now (key_values_cache_key_name cls fs) v
                             (cache_timeout cls) (cache st') |})
    | (Raise e, st') => (Raise e, st')
    end.
Proof.
  intros Hkw Hmiss. unfold key_values. rewrite Hkw.
  rewrite decide_False by (by intros []).
  rewrite key_values_key_default. run. rewrite Hmiss.
  fold (flat_of kwargs). by destruct (values_list_distinct _ _ _ st) as [[v|e] st'].
Qed.

Lemma values_list_distinct_state (cls : Model) (fs : list string) (flat : bool)
    (st : State) (v : pyobj) (st' : State) :
  values_list_distinct cls fs flat st = (Ok v, st') →
  st' = st ∧ if flat then ∃ l, v = PFlat l else ∃ l, v = PTuples l.
Proof.
  unfold values_list_distinct. destruct (flat && _); [done|].
  destruct (decide (Forall _ _)); [|done]. run. intros [= <- <-].
  split; [done|]. destruct flat; eauto.
Qed.

Lemma cache_get_set (now now' : Z) (key : string) (v : pyobj) (timeout : Z)
    (c : gmap string CacheEntry) :
  now' < now + timeout → cache_get now' key (cache_set now key v timeout c) = Some v.
Proof.
  intros H. unfold cache_get, cache_set. rewrite lookup_insert_eq. simpl.
  by rewrite decide_True.
Qed.

(** C9. The key of the [key_values] entry is built from the class name and
    the field names alone.  A call that misses stores its result under that
    key, and until the entry expires every later call for the same fields
    returns that stored value whatever its own [flat] argument is: tuples
    after a first call without [flat], a flat list after a first call with
    it. *)
Theorem key_values_cache_ignores_flat (cls : Model) (fs : list string)
    (kw1 kw2 : gmap string value) (now1 now2 : Z) (st st1 : State) (v : pyobj) :
  delete "flat" kw2 = ∅ →
  cache_get now1 (key_values_cache_key_name cls fs) (cache st) = None →
  key_values cls fs kw1 now1 st = (Ok v, st1) →
  now2 < now1 + cache_timeout cls →
  key_values cls fs kw2 now2 st1 = (Ok v, st1)
  ∧ (if flat_of kw1 then ∃ l, v = PFlat l else ∃ l, v = PTuples l).
Proof.
  intros Hkw2 Hmiss Hfirst Hnow.
  assert (Hkw1 : delete "flat" kw1 = ∅).
  { unfold key_values in Hfirst.
    destruct (decide (delete "flat" kw1 ≠ ∅)) as [|Hn]; [done|].
    by destruct (decide (delete "flat" kw1 = ∅)). }
  rewrite key_values_miss in Hfirst by done.
  destruct (values_list_distinct _ _ _ st) as [[v'|e] st'] eqn:Hvl; [|done].
  injection Hfirst as <- <-.
  apply values_list_distinct_state in Hvl as [-> Hshape].
  split; [|done]. apply key_values_hit; [done|]. simpl. by apply cache_get_set.
Qed.

Lemma key_values_cache_ignores_flat_witness :
  let st := {| table := [embargo_row 1 0 "Italy" "c1" true]; cache := ∅ |} in
  let st1 := (key_values Embargo ["country"] ∅ 0 st).2 in
  key_values Embargo ["country"] {[ "flat" := VBool true ]} 100 st1
  = (Ok (PTuples [[VStr "Italy"]]), st1).
Proof.
  intros st st1.
  refine (proj1 (key_values_cache_ignores_flat Embargo ["country"] ∅
                   {[ "flat" := VBool true ]} 0 100 st st1
                   (PTuples [[VStr "Italy"]]) _ _ _ _)).
  - vm_compute. reflexivity.
  - vm_compute. reflexivity.
  - vm_compute. reflexivity.
  - vm_compute. reflexivity.
Defined.



(** ** [fields_equal] *)

Lemma complete_lookup (cls : Model) (i : instance) (f : Field) :
  complete cls i → f ∈ get_fields cls → many_to_many f = false →
  is_Some (i !! name f).
Proof.
  intros Hc Hf Hm. unfold complete in Hc. rewrite Forall_forall in Hc.
  apply Hc. unfold concrete_names. apply list_elem_of_fmap.
  exists f. split; [done|]. by apply list_elem_of_filter.
Qed.

Lemma py_eq_refl (a : value) : py_eq a a = true.
Proof. destruct a; simpl; try done; by apply bool_decide_eq_true. Qed.

Lemma py_eq_sym (a b : value) : py_eq a b = py_eq b a.
Proof.
  destruct a, b; simpl; try done; apply bool_decide_ext; split; by intros ->.
Qed.

Lemma fields_equal_loop_spec (fields : list Field) (self inst : instance)
    (ignore : list string) :
  Forall (λ f, compared ignore f →
               is_Some (self !! name f) ∧ is_Some (inst !! name f)) fields →
  fields_equal_loop fields self inst ignore
  = Ok (bool_decide (Forall (λ f, compared ignore f →
                                  py_eq (attr inst (name f)) (attr self (name f)) = true)
                            fields)).
Proof.
  induction 1 as [|f fields Hf _ IH]; cbn [fields_equal_loop].
  - by rewrite bool_decide_eq_true_2.
  - destruct (many_to_many f) eqn:Hm; cbn [negb andb].
    { rewrite IH. f_equal. apply bool_decide_ext. rewrite Forall_cons.
      split; [|by intros [_ H]]. intros H. split; [|done].
      intros [Hc _]. congruence. }
    destruct (bool_decide (name f ∉ ignore)) eqn:Hi.
    + apply bool_decide_eq_true in Hi.
      destruct Hf as [[a Ha] [b Hb]]; [done|].
      unfold getattr. rewrite Ha, Hb. cbn [mbind result_bind].
      destruct (py_eq b a) eqn:Heq; cbn [negb].
      * rewrite IH. f_equal. apply bool_decide_ext. rewrite Forall_cons.
        split; [|by intros [_ H]]. intros H. split; [|done].
        intros _. unfold attr. by rewrite Ha, Hb.
      * rewrite bool_decide_eq_false_2; [done|].
        rewrite Forall_cons. intros [H _]. specialize (H (conj Hm Hi)).
        unfold attr in H. rewrite Ha, Hb in H. simpl in H. congruence.
    + apply bool_decide_eq_false in Hi. rewrite IH. f_equal.
      apply bool_decide_ext. rewrite Forall_cons.
      split; [|by intros [_ H]]. intros H. split; [|done].
      by intros [_ Hc].
Qed.

Lemma fields_equal_spec (cls : Model) (self inst : instance) (ignore : list string) :
  complete cls self → complete cls inst →
  fields_equal cls self inst ignore
  = Ok (bool_decide (Forall (λ f, compared ignore f →
                                  py_eq (attr inst (name f)) (attr self (name f)) = true)
                            (get_fields cls))).
Proof.
  intros Hs Hi. apply fields_equal_loop_spec. apply Forall_forall.
  intros f Hf [Hm _]. split; by eapply complete_lookup.
Qed.

(** C7. On two instances of a subtype, [fields_equal] with the default
    [fields_to_ignore] is [True] when every field other than [id],
    [change_date], [changed_by] and the many-to-many relations has equal
    values in both (Python's [==]), and [False] as soon as one such field
    differs (Python's [!=]); so changing only the three ignored fields of an
    instance leaves it equal. *)
Theorem fields_equal_default (cls : Model) (self inst : instance) :
  complete cls self → complete cls inst →
  ((∀ f, f ∈ get_fields cls → compared default_fields_to_ignore f →
         py_eq (attr inst (name f)) (attr self (name f)) = true) →
     fields_equal cls self inst default_fields_to_ignore = Ok true)
  ∧ (∀ f, f ∈ get_fields cls → compared default_fields_to_ignore f →
          py_eq (attr inst (name f)) (attr self (name f)) = false →
          fields_equal cls self inst default_fields_to_ignore = Ok false)
  ∧ (∀ v1 v2 v3,
       fields_equal cls self
         (<["id" := v1]> (<["change_date" := v2]> (<["changed_by" := v3]> self)))
         default_fields_to_ignore = Ok true).
Proof.
  intros Hs Hi. split; [|split].
  - intros Hsame. rewrite fields_equal_spec by done.
    rewrite bool_decide_eq_true_2; [done|]. by apply Forall_forall.
  - intros f Hf Hc Hne. rewrite fields_equal_spec by done.
    rewrite bool_decide_eq_false_2; [done|].
    rewrite Forall_forall. intros H. specialize (H f Hf Hc). congruence.
  - intros v1 v2 v3. rewrite fields_equal_spec; [| done |].
    + rewrite bool_decide_eq_true_2; [done|]. apply Forall_forall.
      intros f _ [_ Hn]. unfold default_fields_to_ignore in Hn. unfold attr.
      rewrite !lookup_insert_ne; [apply py_eq_refl|set_solver..].
    + unfold complete in *. eapply Forall_impl; [exact Hs|]. intros k [v Hv].
      destruct (decide ("id" = k)) as [<-|]; [rewrite lookup_insert_eq; eauto|].
      rewrite lookup_insert_ne by done.
      destruct (decide ("change_date" = k)) as [<-|]; [rewrite lookup_insert_eq; eauto|].
      rewrite lookup_insert_ne by done.
      destruct (decide ("changed_by" = k)) as [<-|]; [rewrite lookup_insert_eq; eauto|].
      rewrite lookup_insert_ne by done. eauto.
Qed.

Lemma fields_equal_default_witness :
  fields_equal CourseConfig (from_db (course_row 1 10 "X" true))
    (<["enabled" := VInt 1]> (from_db (course_row 2 20 "X" true)))
    default_fields_to_ignore = Ok true
  ∧ fields_equal CourseConfig (from_db (course_row 1 10 "X" true))
      (from_db (course_row 2 20 "X" false)) default_fields_to_ignore = Ok false.
Proof.
  split.
  - refine (proj1 (fields_equal_default CourseConfig _ _ _ _) _).
    + apply (bool_decide_unpack _). vm_compute. exact I.
    + apply (bool_decide_unpack _). vm_compute. exact I.
    + apply (proj1 (Forall_forall
               (λ f, compared default_fields_to_ignore f →
                     py_eq (attr (<["enabled" := VInt 1]>
                                    (from_db (course_row 2 20 "X" true))) (name f))
                           (attr (from_db (course_row 1 10 "X" true)) (name f)) = true)
               (get_fields CourseConfig))).
      apply (bool_decide_unpack _). vm_compute. exact I.
  - refine (proj1 (proj2 (fields_equal_default CourseConfig _ _ _ _))
              {| name := "enabled"; many_to_many := false;
                 field_default := VBool false; column := BooleanField;
                 null := false |} _ _ _).
    + apply (bool_decide_unpack _). vm_compute. exact I.
    + apply (bool_decide_unpack _). vm_compute. exact I.
    + apply (bool_decide_unpack _). vm_compute. exact I.
    + apply (bool_decide_unpack _). vm_compute. exact I.
    + vm_compute. reflexivity.
Defined.

(** ** Key dictionaries *)

Lemma dict_acc_lookup (l : list (string * value)) (m : gmap string value)
    (k : string) (v : value) :
  foldl (λ m kv, <[kv.1 := kv.2]> m) m l !! k = Some v →
  (k, v) ∈ l ∨ m !! k = Some v.
Proof.
  revert m. induction l as [|[k' v'] l IH]; intros m; simpl; [auto|].
  intros H. apply IH in H as [H|H]; [left; by right|].
  destruct (decide (k' = k)) as [->|Hne].
  - rewrite lookup_insert_eq in H. injection H as ->. left. by left.
  - rewrite lookup_insert_ne in H by done. auto.
Qed.

Lemma dict_acc_notin (l : list (string * value)) (m : gmap string value) (k : string) :
  k ∉ l.*1 → foldl (λ m kv, <[kv.1 := kv.2]> m) m l !! k = m !! k.
Proof.
  revert m. induction l as [|[k' v'] l IH]; intros m; simpl; [done|].
  intros Hn. apply not_elem_of_cons in Hn as [Hne Hn].
  rewrite IH by done. by rewrite lookup_insert_ne.
Qed.

Lemma dict_acc_in (l : list (string * value)) (m : gmap string value)
    (k : string) (v : value) :
  NoDup l.*1 → (k, v) ∈ l →
  foldl (λ m kv, <[kv.1 := kv.2]> m) m l !! k = Some v.
Proof.
  revert m. induction l as [|[k' v'] l IH]; intros m; simpl.
  { by intros _ ?%elem_of_nil. }
  intros [Hn Hnd]%NoDup_cons [Heq|Hin]%elem_of_cons.
  - injection Heq as -> ->. rewrite dict_acc_notin by done. apply lookup_insert_eq.
  - by apply IH.
Qed.

Lemma zip_fst {A B} (l : list A) (k : list B) :
  length l = length k → (zip l k).*1 = l.
Proof.
  revert k. induction l as [|a l IH]; intros [|b k]; simpl; try done.
  intros [=]. f_equal. auto.
Qed.

Lemma zip_fst_subset {A B} (l : list A) (k : list B) (a : A) :
  a ∈ (zip l k).*1 → a ∈ l.
Proof.
  revert k. induction l as [|x l IH]; intros [|b k]; simpl;
    try by intros ?%elem_of_nil.
  intros [->|H]%elem_of_cons; [by left|]. right. eauto.
Qed.

Lemma dict_zip_key (ks : list string) (args : list value) (k : string) (v : value) :
  dict (zip ks args) !! k = Some v → k ∈ ks.
Proof.
  intros [H|H]%dict_acc_lookup; [|by rewrite lookup_empty in H].
  apply (zip_fst_subset ks args). apply list_elem_of_fmap. by exists (k, v).
Qed.

Lemma zip_Forall2 {A B} (P : A → B → Prop) (l : list A) (k : list B) :
  length l = length k →
  Forall2 P l k ↔ Forall (λ ab, P ab.1 ab.2) (zip l k).
Proof.
  revert k. induction l as [|a l IH]; intros [|b k]; simpl; try done.
  intros [=]. rewrite Forall2_cons, Forall_cons. by rewrite IH.
Qed.

Lemma fmap_eq_zip {A B} (f : A → B) (l : list A) (k : list B) :
  length k = length l →
  f <$> l = k ↔ Forall (λ ab, f ab.1 = ab.2) (zip l k).
Proof.
  intros Hlen. rewrite <-(zip_Forall2 (λ a b, f a = b)) by done. split.
  - intros <-. apply Forall2_fmap_r, Forall_Forall2_diag, Forall_forall. done.
  - intros H. apply list_eq_Forall2, Forall2_fmap_l.
    eapply Forall2_impl; [exact H|]. done.
Qed.

(** With distinct key fields and one argument for each, the filter keeps
    the rows whose key tuple is the argument tuple. *)
Lemma matches_key_of (cls : Model) (args : list value) (r : Row) :
  NoDup (KEY_FIELDS cls) → length args = length (KEY_FIELDS cls) →
  matches (dict (zip (KEY_FIELDS cls) args)) r ↔ key_of cls r = args.
Proof.
  intros Hnd Hlen. unfold matches, key_of.
  rewrite fmap_eq_zip by done. rewrite Forall_forall. split.
  - intros H [k v] Hin. apply H. apply dict_acc_in; [|done].
    by rewrite zip_fst.
  - intros H k v Hkv. apply dict_acc_lookup in Hkv as [Hin|He].
    + by apply (H (k, v)).
    + by rewrite lookup_empty in He.
Qed.

(** ** Well-formed subtypes *)

Lemma well_formed_concrete (cls : Model) (k : string) :
  well_formed cls → k ∈ KEY_FIELDS cls → k ∈ concrete_names cls.
Proof. intros [_ H]. rewrite Forall_forall in H. intros Hk. by apply H. Qed.

Lemma well_formed_not_base (cls : Model) (k : string) :
  well_formed cls → k ∈ KEY_FIELDS cls → k ∉ name <$> base_fields.
Proof. intros [_ H]. rewrite Forall_forall in H. intros Hk. by apply H. Qed.

(** ** [current] *)

Section current_facts.
Context `{B : Backend} (cls : Model).


Lemma order_by_elem_of (rows : list Row) (r : Row) :
  r ∈ order_by_change_date_desc rows ↔ r ∈ rows.
Proof. by rewrite order_by_permutation. Qed.

(** The first row of the ordered result is a row with the latest date. *)
Lemma order_by_head (rows : list Row) (r : Row) (rest : list Row) :
  order_by_change_date_desc rows = r :: rest →
  r ∈ rows ∧ ∀ r', r' ∈ rows → row_date r' ≤ row_date r.
Proof.
  intros Heq. split.
  - apply order_by_elem_of. rewrite Heq. by left.
  - intros r' Hr'. apply order_by_elem_of in Hr'.
    pose proof (order_by_sorted rows) as Hs. rewrite Heq in Hs, Hr'.
    apply StronglySorted_inv in Hs as [_ Hall]. rewrite Forall_forall in Hall.
    apply elem_of_cons in Hr' as [->|Hr']; [done|]. by apply Hall.
Qed.

Lemma order_by_nonempty (rows : list Row) (r : Row) :
  r ∈ rows → ∃ r' rest, order_by_change_date_desc rows = r' :: rest.
Proof.
  intros Hr. apply order_by_elem_of in Hr.
  destruct (order_by_change_date_desc rows) as [|r' rest]; [|eauto].
  by apply elem_of_nil in Hr.
Qed.

Lemma check_kwargs_ok (ks : list string) :
  Forall (λ k, k ∈ concrete_names cls) ks → check_kwargs cls ks = Ok ().
Proof.
  induction 1 as [|k ks Hk _ IH]; [done|].
  simpl. unfold check_kwarg. by rewrite decide_True.
Qed.

Lemma construct_ok (kwargs : gmap string value) :
  map_Forall (λ k _, k ∈ concrete_names cls) kwargs →
  construct cls kwargs = Ok (kwargs ∪ defaults cls).
Proof.
  intros H. unfold construct. rewrite check_kwargs_ok; [done|].
  apply Forall_forall. intros k [[k' v] [-> Hin]]%list_elem_of_fmap.
  apply elem_of_map_to_list in Hin. by apply (H k' v).
Qed.

Lemma key_dict_concrete (args : list value) :
  Forall (λ k, k ∈ concrete_names cls) (KEY_FIELDS cls) →
  map_Forall (λ k _, k ∈ concrete_names cls) (dict (zip (KEY_FIELDS cls) args)).
Proof.
  intros H k v Hkv. rewrite Forall_forall in H. apply H.
  by eapply dict_zip_key.
Qed.

Lemma current_hit (args : list value) (now : Z) (st : State) (v : pyobj) :
  KEY_FIELDS cls = [] ∨ length args = length (KEY_FIELDS cls) →
  cache_get now (current_key cls args) (cache st) = Some v →
  current cls args now st = (Ok v, st).
Proof.
  intros Hlen Hhit. unfold current. rewrite cache_key_name_ok by done.
  run. by rewrite Hhit.
Qed.

Lemma current_miss (args : list value) (now : Z) (st : State) :
  Forall (λ k, k ∈ concrete_names cls) (KEY_FIELDS cls) →
  KEY_FIELDS cls = [] ∨ length args = length (KEY_FIELDS cls) →
  cache_get now (current_key cls args) (cache st) = None →
  current cls args now st =
    (Ok (PInst (resolved cls args (table st))),
     {| table := table st;
        cache := cache_set now (current_key cls args)
                   (PInst (resolved cls args (table st))) (cache_timeout cls) (cache st) |}).
Proof.
  intros Hwf Hlen Hmiss. unfold current. rewrite cache_key_name_ok by done.
  run. rewrite Hmiss. unfold objects_filter.
  rewrite decide_True by by apply key_dict_concrete.
  run. unfold resolved, lookup_rows.
  destruct (order_by_change_date_desc _) as [|r rest]; [|done].
  by rewrite construct_ok by by apply key_dict_concrete.
Qed.

End current_facts.


Lemma filter_base_fields :
  filter (λ f, many_to_many f = false) base_fields = base_fields.
Proof. reflexivity. Qed.

Lemma defaults_id (cls : Model) : defaults cls !! "id" = Some VNone.
Proof.
  unfold defaults, get_fields. rewrite filter_app, filter_base_fields.
  simpl. apply lookup_insert_eq.
Qed.


Lemma key_dict_not_key (cls : Model) (args : list value) (k : string) :
  k ∉ KEY_FIELDS cls → dict (zip (KEY_FIELDS cls) args) !! k = None.
Proof.
  intros Hn. destruct (dict _ !! k) as [v|] eqn:H; [|done].
  by apply dict_zip_key in H.
Qed.


(** The rows a lookup selects from are the stored rows of the key tuple. *)
Lemma lookup_rows_spec (cls : Model) (args : list value) (t : list Row) (r : Row) :
  well_formed cls → length args = length (KEY_FIELDS cls) →
  r ∈ lookup_rows cls args t ↔ r ∈ t ∧ key_of cls r = args.
Proof.
  intros Hwf Hlen. unfold lookup_rows. rewrite list_elem_of_filter.
  rewrite matches_key_of by (apply Hwf || done). tauto.
Qed.

(** With stored rows of the key tuple, a miss resolves to one of them that
    no other is dated after. *)
Lemma resolved_latest `{B : Backend} (cls : Model) (args : list value)
    (t : list Row) (r0 : Row) :
  well_formed cls → length args = length (KEY_FIELDS cls) →
  r0 ∈ t → key_of cls r0 = args →
  ∃ r, r ∈ t ∧ key_of cls r = args ∧ resolved cls args t = from_db r
       ∧ ∀ r', r' ∈ t → key_of cls r' = args → row_date r' ≤ row_date r.
Proof.
  intros Hwf Hlen Hr0 Hk0.
  destruct (order_by_nonempty (lookup_rows cls args t) r0) as (r & rest & Hord);
    [by apply lookup_rows_spec|].
  destruct (order_by_head _ _ _ Hord) as [Hr Hlatest].
  apply lookup_rows_spec in Hr as [Hr Hkr]; [|done..].
  exists r. split; [done|]. split; [done|]. split.
  - unfold resolved. by rewrite Hord.
  - intros r' Hr' Hk'. apply Hlatest. by apply lookup_rows_spec.
Qed.


Lemma well_formed_keys_concrete (cls : Model) :
  well_formed cls → Forall (λ k, k ∈ concrete_names cls) (KEY_FIELDS cls).
Proof. intros Hwf. apply Forall_forall. intros k. by apply well_formed_concrete. Qed.



(** ** [current] and the row with the highest id *)

Lemma foldr_max_base (b : Z) (l : list Z) : b ≤ foldr Z.max b l.
Proof. induction l as [|y l IH]; simpl; lia. Qed.

Lemma foldr_max_le (b m : Z) (l : list Z) :
  b ≤ m → (∀ x, x ∈ l → x ≤ m) → foldr Z.max b l ≤ m.
Proof.
  intros Hb. induction l as [|y l IH]; simpl; [done|].
  intros H. assert (y ≤ m) by (apply H; by left).
  assert (foldr Z.max b l ≤ m) by (apply IH; intros x Hx; apply H; by right). lia.
Qed.

Lemma sql_max_greatest (l : list Z) (m : Z) :
  m ∈ l → (∀ x, x ∈ l → x ≤ m) → sql_max l = Some m.
Proof.
  destruct l as [|n l]; [by intros ?%elem_of_nil|].
  intros Hm Hall. simpl. f_equal.
  assert (foldr Z.max n l ≤ m).
  { apply foldr_max_le; [apply Hall; by left|]. intros x Hx. apply Hall. by right. }
  assert (m ≤ foldr Z.max n l); [|lia].
  apply elem_of_cons in Hm as [->|Hm]; [apply foldr_max_base|by apply foldr_max_ge].
Qed.

Lemma NoDup_fmap_eq {A C} (f : A → C) (l : list A) (x y : A) :
  NoDup (f <$> l) → x ∈ l → y ∈ l → f x = f y → x = y.
Proof.
  induction l as [|a l IH]; simpl; [by intros _ ?%elem_of_nil|].
  intros [Hn Hnd]%NoDup_cons [->|Hx]%elem_of_cons [->|Hy]%elem_of_cons Heq; auto.
  - destruct Hn. rewrite Heq. apply list_elem_of_fmap. eauto.
  - destruct Hn. rewrite <-Heq. apply list_elem_of_fmap. eauto.
Qed.

(** A row whose id is the greatest of its key group is selected by the
    [MAX(id)] subquery. *)
Lemma max_id_in_subquery (cls : Model) (t : list Row) (r : Row) :
  r ∈ t →
  (∀ r', r' ∈ t → key_of cls r' = key_of cls r → row_id r' ≤ row_id r) →
  row_id r ∈ _current_ids_subquery cls t.
Proof.
  intros Hr Hmax. unfold _current_ids_subquery. apply list_elem_of_omap.
  exists (key_of cls r). split.
  - apply elem_of_remove_dups, list_elem_of_fmap. eauto.
  - apply sql_max_greatest.
    + apply list_elem_of_fmap. exists r. split; [done|].
      by apply list_elem_of_filter.
    + intros x [r' [-> [Hk Hr']%list_elem_of_filter]]%list_elem_of_fmap. auto.
Qed.

(** Among the rows of a key tuple with distinct ids where a higher id
    always comes with a strictly later date, a row that none is dated after
    has the highest id. *)
Lemma latest_is_max_id (cls : Model) (args : list value) (t : list Row) (r : Row) :
  NoDup (row_id <$> t) →
  (∀ r1 r2, r1 ∈ t → r2 ∈ t → key_of cls r1 = args → key_of cls r2 = args →
            row_id r1 < row_id r2 → row_date r1 < row_date r2) →
  r ∈ t → key_of cls r = args →
  (∀ r', r' ∈ t → key_of cls r' = args → row_date r' ≤ row_date r) →
  ∀ r', r' ∈ t → key_of cls r' = args → r' ≠ r → row_id r' < row_id r.
Proof.
  intros Hnd Hmono Hr Hkr Hlatest r' Hr' Hk' Hne.
  destruct (Z.lt_trichotomy (row_id r') (row_id r)) as [?|[Heq|Hgt]]; [done| |].
  - destruct Hne. by eapply (NoDup_fmap_eq row_id).
  - pose proof (Hmono r r' Hr Hr' Hkr Hk' Hgt).
    pose proof (Hlatest r' Hr' Hk'). lia.
Qed.

Ltac in_list H :=
  repeat (apply elem_of_cons in H as [->|H]);
  try (apply elem_of_nil in H; destruct H).

(** C1, as the code has it.  [current] orders by [change_date] alone.  On a
    miss for a key tuple with stored rows it returns a stored row of that
    tuple that no other row of the tuple is dated after.  When ids are
    distinct and, among the rows of the tuple, a higher id always comes with
    a strictly later date (the assumption written next to the [MAX(id)]
    subquery), that row is the one with the highest id, and it is the row
    the subquery and [current_set] select for the tuple. *)
Theorem current_is_max_id `{B : Backend} (cls : Model) (args : list value)
    (now : Z) (st : State) (r0 : Row) :
  well_formed cls →
  length args = length (KEY_FIELDS cls) →
  cache_get now (current_key cls args) (cache st) = None →
  r0 ∈ table st → key_of cls r0 = args →
  ∃ r, r ∈ table st ∧ key_of cls r = args
    ∧ (current cls args now st).1 = Ok (PInst (from_db r))
    ∧ (∀ r', r' ∈ table st → key_of cls r' = args → row_date r' ≤ row_date r)
    ∧ (NoDup (row_id <$> table st) →
       (∀ r1 r2, r1 ∈ table st → r2 ∈ table st →
                 key_of cls r1 = args → key_of cls r2 = args →
                 row_id r1 < row_id r2 → row_date r1 < row_date r2) →
       (∀ r', r' ∈ table st → key_of cls r' = args → r' ≠ r → row_id r' < row_id r)
       ∧ (KEY_FIELDS cls ≠ [] →
            row_id r ∈ _current_ids_subquery cls (table st)
            ∧ ∃ l, (current_set cls st).1 = Ok l
                   ∧ <["is_active" := VInt 1]> (from_db r) ∈ l)).
Proof.
  intros Hwf Hlen Hmiss Hr0 Hk0.
  destruct (resolved_latest cls args (table st) r0 Hwf Hlen Hr0 Hk0)
    as (r & Hr & Hkr & Hres & Hlatest).
  exists r. split; [done|]. split; [done|]. split; [|split; [done|]].
  - rewrite current_miss; [|by apply well_formed_keys_concrete|by right|done].
    cbn [fst]. by rewrite Hres.
  - intros Hnd Hmono.
    pose proof (latest_is_max_id cls args (table st) r Hnd Hmono Hr Hkr Hlatest) as Hmax.
    split; [done|]. intros Hne.
    assert (Hsub : row_id r ∈ _current_ids_subquery cls (table st)).
    { apply max_id_in_subquery; [done|]. intros r' Hr' Hk'.
      destruct (decide (r' = r)) as [->|Hd]; [done|].
      apply Z.lt_le_incl, Hmax; congruence. }
    split; [done|]. unfold current_set. rewrite decide_True by done. run.
    eexists. split; [done|]. apply list_elem_of_fmap. exists r. split; [done|].
    apply order_by_elem_of, list_elem_of_filter. done.
Qed.

Lemma current_is_max_id_witness :
  ∃ r, r ∈ [course_row 1 10 "X" true; course_row 2 20 "X" false]
    ∧ (@current insertion_order_backend CourseConfig [VStr "X"] 30
         {| table := [course_row 1 10 "X" true; course_row 2 20 "X" false];
            cache := ∅ |}).1 = Ok (PInst (from_db r))
    ∧ row_date (course_row 1 10 "X" true) ≤ row_date r
    ∧ row_id r ∈ _current_ids_subquery CourseConfig
                   [course_row 1 10 "X" true; course_row 2 20 "X" false].
Proof.
  destruct (@current_is_max_id insertion_order_backend CourseConfig [VStr "X"] 30
              {| table := [course_row 1 10 "X" true; course_row 2 20 "X" false];
                 cache := ∅ |} (course_row 1 10 "X" true))
    as (r & Hr & _ & Hcur & Hlatest & Hmax).
  - apply (bool_decide_unpack _). vm_compute. exact I.
  - reflexivity.
  - vm_compute. reflexivity.
  - cbn [table]. left.
  - vm_compute. reflexivity.
  - exists r. split; [exact Hr|]. split; [exact Hcur|]. split.
    + apply Hlatest; [cbn [table]; left|vm_compute; reflexivity].
    + apply Hmax; [| |discriminate].
      * apply (bool_decide_unpack _). vm_compute. exact I.
      * intros r1 r2 H1 H2 _ _. cbn [table] in H1, H2.
        in_list H1; in_list H2; unfold course_row; cbn [row_id row_date]; lia.
Defined.

(** C1 as stated fails when timestamps collide: a database that lists equal
    dates in insertion order makes [current] return the first write (id 1),
    while the [MAX(id)] subquery selects id 2. *)
Lemma current_tie_not_max_id :
  table same_instant_writes = [course_row 1 10 "X" true; course_row 2 10 "X" false]
  ∧ cache_get 11 (current_key CourseConfig [VStr "X"]) (cache same_instant_writes) = None
  ∧ (@current insertion_order_backend CourseConfig [VStr "X"] 11 same_instant_writes).1
    = Ok (PInst (from_db (course_row 1 10 "X" true)))
  ∧ _current_ids_subquery CourseConfig (table same_instant_writes) = [2].
Proof. vm_compute. repeat split; reflexivity. Qed.

(** ** [current] after [save] *)

Lemma key_field_not_base (cls : Model) (k : string) :
  well_formed cls → k ∈ KEY_FIELDS cls →
  k ≠ "id" ∧ k ≠ "change_date" ∧ k ≠ "changed_by" ∧ k ≠ "enabled".
Proof.
  intros Hwf Hk. pose proof (well_formed_not_base cls k Hwf Hk) as Hn.
  simpl in Hn. repeat split; intros ->; apply Hn; set_solver.
Qed.

(** The stored row gives back what the instance held in every column but
    [id] and [change_date]. *)
Lemma from_db_insert_row (cls : Model) (self : instance) (now : Z) (t : list Row)
    (k : string) :
  k ∈ concrete_names cls → k ≠ "id" → k ≠ "change_date" →
  from_db (insert_row cls (<["id" := VNone]> self) now t) !! k = self !! k.
Proof.
  intros Hk Hid Hcd. unfold from_db, insert_row. cbn [row_id row_date row_cols].
  rewrite !lookup_insert_ne by done.
  rewrite map_lookup_filter, lookup_insert_ne by done.
  destruct (self !! k) as [v|]; [|done]. simpl. by rewrite option_guard_True.
Qed.

Lemma key_args_saved (cls : Model) (self : instance) (now : Z) (t : list Row) :
  well_formed cls → key_args cls (saved self now t) = key_args cls self.
Proof.
  intros Hwf. unfold key_args. apply Forall_fmap_ext, Forall_forall.
  intros k Hk. destruct (key_field_not_base cls k Hwf Hk) as (? & ? & _).
  unfold saved. by rewrite !lookup_insert_ne.
Qed.

Lemma key_of_insert_row (cls : Model) (self : instance) (now : Z) (t : list Row) :
  well_formed cls →
  key_of cls (insert_row cls (<["id" := VNone]> self) now t) = key_args cls self.
Proof.
  intros Hwf. unfold key_of, key_args. apply Forall_fmap_ext, Forall_forall.
  intros k Hk. destruct (key_field_not_base cls k Hwf Hk) as (? & ? & _).
  unfold row_attr. rewrite from_db_insert_row; [done| |done..].
  by apply well_formed_concrete.
Qed.

Lemma mapM_getattr_inv (self : instance) (ks : list string) (vs : list value) :
  mapM (getattr self) ks = Ok vs → Forall (λ k, is_Some (self !! k)) ks.
Proof.
  revert vs. induction ks as [|k ks IH]; intros vs H; [constructor|].
  simpl in H. destruct (getattr self k) as [v|e] eqn:Hv; simpl in H; [|done].
  destruct (mapM (getattr self) ks) as [l|e]; simpl in H; [|done].
  constructor; [|by eapply IH].
  unfold getattr in Hv. by destruct (self !! k).
Qed.

(** [save] returns only for an instance that has its key fields. *)
Lemma save_returns_keys (cls : Model) (self self' : instance) (now : Z)
    (st st1 : State) :
  well_formed cls → save cls self now st = (Ok self', st1) →
  Forall (λ k, is_Some (self !! k)) (KEY_FIELDS cls).
Proof.
  intros Hwf Hsave. unfold save in Hsave. revert Hsave. run.
  destruct (mapM _ (KEY_FIELDS cls)) as [keys|e] eqn:Hkeys; [|done]. intros _.
  apply mapM_getattr_inv in Hkeys. rewrite Forall_forall in Hkeys.
  apply Forall_forall. intros k Hk. specialize (Hkeys k Hk).
  destruct (key_field_not_base cls k Hwf Hk) as (? & ? & _).
  by rewrite !lookup_insert_ne in Hkeys.
Qed.

(** The entry of the instance's key tuple is not served once [save] has
    deleted it. *)
Lemma evicted_miss (cls : Model) (self : instance) (now' : Z)
    (c : gmap string CacheEntry) :
  cache_get now' (current_key cls (key_args cls self)) (evicted cls self c) = None.
Proof.
  unfold cache_get, evicted. destruct (decide (KEY_FIELDS cls ≠ [])).
  - rewrite lookup_delete_ne by (symmetry; apply current_key_ne_key_values_key).
    by rewrite lookup_delete_eq.
  - by rewrite lookup_delete_eq.
Qed.

(** After [save], a lookup for the key tuple of the instance goes to the
    table, new row included. *)
Lemma current_after_save_fresh `{B : Backend} (cls : Model) (self : instance)
    (now now' : Z) (st : State) :
  well_formed cls →
  Forall (λ k, is_Some (self !! k)) (KEY_FIELDS cls) →
  current cls (key_args cls self) now' (save cls self now st).2
  = (Ok (PInst (resolved cls (key_args cls self)
                  (table st ++ [insert_row cls (<["id" := VNone]> self) now (table st)]))),
     {| table := table st ++ [insert_row cls (<["id" := VNone]> self) now (table st)];
        cache := cache_set now' (current_key cls (key_args cls self))
                   (PInst (resolved cls (key_args cls self)
                             (table st ++ [insert_row cls (<["id" := VNone]> self) now
                                             (table st)])))
                   (cache_timeout cls)
                   (evicted cls (saved self now (table st)) (cache st)) |}).
Proof.
  intros Hwf Hkeys. rewrite save_run by done. cbn [snd].
  rewrite current_miss;
    [done|by apply well_formed_keys_concrete|right; apply length_key_args|].
  cbn [cache]. rewrite <-(key_args_saved cls self now (table st) Hwf).
  apply evicted_miss.
Qed.

(** A row written with a stamp strictly later than the stored rows of its
    key tuple is the one a lookup resolves to. *)
Lemma resolved_after_save `{B : Backend} (cls : Model) (self : instance)
    (now : Z) (t : list Row) :
  well_formed cls →
  (∀ r, r ∈ t → key_of cls r = key_args cls self → row_date r < now) →
  resolved cls (key_args cls self) (t ++ [insert_row cls (<["id" := VNone]> self) now t])
  = from_db (insert_row cls (<["id" := VNone]> self) now t).
Proof.
  intros Hwf Hlater. set (row := insert_row cls (<["id" := VNone]> self) now t).
  destruct (resolved_latest cls (key_args cls self) (t ++ [row]) row)
    as (r & Hr & Hk & -> & Hlatest);
    [done|apply length_key_args|apply elem_of_app; right; by left
    |by apply key_of_insert_row|].
  f_equal. apply elem_of_app in Hr as [Hr|Hr]; [|by apply list_elem_of_singleton in Hr].
  specialize (Hlater r Hr Hk).
  assert (Hle : row_date row ≤ row_date r).
  { apply Hlatest; [apply elem_of_app; right; by left|by apply key_of_insert_row]. }
  unfold row in Hle. cbn [insert_row row_date] in Hle. lia.
Qed.

(** What [current] returns after such a write. *)
Lemma current_after_save_row `{B : Backend} (cls : Model) (self : instance)
    (now now' : Z) (st : State) :
  well_formed cls →
  Forall (λ k, is_Some (self !! k)) (KEY_FIELDS cls) →
  (∀ r, r ∈ table st → key_of cls r = key_args cls self → row_date r < now) →
  (current cls (key_args cls self) now' (save cls self now st).2).1
  = Ok (PInst (from_db (insert_row cls (<["id" := VNone]> self) now (table st)))).
Proof.
  intros Hwf Hkeys Hlater. rewrite current_after_save_fresh by done. cbn [fst].
  by rewrite resolved_after_save.
Qed.

Lemma from_db_id (r : Row) : from_db r !! "id" = Some (VInt (row_id r)).
Proof. unfold from_db. by rewrite lookup_insert_eq. Qed.

Lemma from_db_change_date (r : Row) :
  from_db r !! "change_date" = Some (VInt (row_date r)).
Proof. unfold from_db. rewrite lookup_insert_ne by done. by rewrite lookup_insert_eq. Qed.

(** An instance whose values the columns store has its key fields. *)
Lemma typed_has_keys (cls : Model) (self : instance) :
  well_formed cls → typed cls self →
  Forall (λ k, is_Some (self !! k)) (KEY_FIELDS cls).
Proof.
  intros Hwf Ht. apply Forall_forall. intros k Hk.
  destruct (key_field_not_base cls k Hwf Hk) as (Hid & Hcd & _).
  pose proof (well_formed_concrete cls k Hwf Hk) as Hc.
  unfold concrete_names in Hc. apply list_elem_of_fmap in Hc as (f & -> & Hf).
  apply list_elem_of_filter in Hf as [Hm Hf].
  unfold typed in Ht. rewrite Forall_forall in Ht. specialize (Ht f Hf Hm).
  destruct (self !! name f) as [v|]; [by eexists|].
  destruct Ht. intros Hin. apply elem_of_cons in Hin as [?|Hin]; [done|].
  apply elem_of_cons in Hin as [?|Hin]; [done|]. by apply elem_of_nil in Hin.
Qed.

(** C2, as the code has it.  Whenever [save] returns, the entry of the
    instance's key tuple is gone from the cache, whatever the cache held and
    whatever the clock reads: the next [current] for that tuple is not
    served a cached value.  For an instance whose values are of the kinds
    its columns store, [save] returns, and [current] then reads the table,
    new row included, and returns a row of the key tuple that no other is
    dated after.  When the clock reading of the write is strictly later
    than the dates of the rows already stored for the tuple, that row is
    the one just written: the written value in every column, the fresh id
    and the write time. *)
Theorem current_after_save `{B : Backend} (cls : Model) (self : instance)
    (now now' : Z) (st : State) :
  well_formed cls →
  (∀ self' st1, save cls self now st = (Ok self', st1) →
     cache_get now' (current_key cls (key_args cls self')) (cache st1) = None)
  ∧ (typed cls self →
     let row := insert_row cls (<["id" := VNone]> self) now (table st) in
     ∃ self' st1 r st2,
       save cls self now st = (Ok self', st1)
       ∧ key_args cls self' = key_args cls self
       ∧ table st1 = table st ++ [row]
       ∧ current cls (key_args cls self') now' st1 = (Ok (PInst (from_db r)), st2)
       ∧ table st2 = table st1
       ∧ r ∈ table st1 ∧ key_of cls r = key_args cls self'
       ∧ (∀ r', r' ∈ table st1 → key_of cls r' = key_args cls self' →
                row_date r' ≤ row_date r)
       ∧ ((∀ r', r' ∈ table st → key_of cls r' = key_args cls self →
                 row_date r' < now) →
          r = row
          ∧ (∀ k, k ∈ concrete_names cls → k ≠ "id" → k ≠ "change_date" →
                  from_db row !! k = self !! k)
          ∧ from_db row !! "id" = Some (VInt (next_id (table st)))
          ∧ from_db row !! "change_date" = Some (VInt now))).
Proof.
  intros Hwf. split.
  - intros self' st1 Hsave.
    pose proof (save_returns_keys cls self self' now st st1 Hwf Hsave) as Hkeys.
    rewrite save_run in Hsave by done. injection Hsave as <- <-. cbn [cache].
    apply evicted_miss.
  - intros Ht row.
    pose proof (typed_has_keys cls self Hwf Ht) as Hkeys.
    pose proof (key_args_saved cls self now (table st) Hwf) as Hargs.
    pose proof (current_after_save_fresh cls self now now' st Hwf Hkeys) as Hcur.
    fold row in Hcur. rewrite save_run in Hcur by done.
    cbn [snd] in Hcur.
    destruct (resolved_latest cls (key_args cls self) (table st ++ [row]) row)
      as (r & Hr & Hk & Hres & Hlatest);
      [done|apply length_key_args|apply elem_of_app; right; by left
      |by apply key_of_insert_row|].
    rewrite Hres in Hcur.
    eexists _, _, r, _. split; [by apply save_run|]. rewrite Hargs. cbn [table].
    split; [done|]. split; [done|]. split; [exact Hcur|]. cbn [table].
    split; [done|]. split; [done|]. split; [done|]. split; [done|].
    intros Hlater.
    pose proof (resolved_after_save cls self now (table st) Hwf Hlater) as Hrow.
    fold row in Hrow. rewrite Hres in Hrow.
    assert (Heq : r = row).
    { destruct r as [i1 d1 c1], row as [i2 d2 c2] eqn:Erow.
      assert (H1 := f_equal (λ m, m !! "id") Hrow).
      assert (H2 := f_equal (λ m, m !! "change_date") Hrow).
      cbn beta in H1, H2. rewrite !from_db_id in H1.
      rewrite !from_db_change_date in H2. cbn [row_id row_date] in H1, H2.
      apply elem_of_app in Hr as [Hr|Hr]; [|by apply list_elem_of_singleton in Hr].
      pose proof (next_id_above (table st) _ Hr) as Hlt. cbn [row_id] in Hlt.
      assert (i2 = next_id (table st)).
      { unfold row in Erow. unfold insert_row in Erow. by injection Erow as <- _ _. }
      injection H1 as H1. lia. }
    split; [done|]. split; [|split].
    + intros k Hk' Hid Hcd. by apply from_db_insert_row.
    + by rewrite from_db_id.
    + by rewrite from_db_change_date.
Qed.

Lemma current_after_save_witness :
  ∃ st2,
    @current insertion_order_backend CourseConfig (key_args CourseConfig course_off) 20
      (save CourseConfig course_off 20 one_write).2
    = (Ok (PInst (from_db (insert_row CourseConfig (<["id" := VNone]> course_off) 20
                             (table one_write)))), st2)
    ∧ from_db (insert_row CourseConfig (<["id" := VNone]> course_off) 20
                 (table one_write)) !! "enabled" = Some (VBool false).
Proof.
  destruct (@current_after_save insertion_order_backend CourseConfig course_off 20 20
              one_write) as [_ Hread].
  - apply (bool_decide_unpack _). vm_compute. exact I.
  - destruct Hread as (self' & st1 & r & st2 & Hsave & Hargs & _ & Hcur & _ & _ & _ & _
                       & Hrow).
    + apply (bool_decide_unpack _). vm_compute. exact I.
    + destruct Hrow as (-> & _).
      { assert (Ht : table one_write = [course_row 1 10 "X" true])
          by (vm_compute; reflexivity).
        intros r' Hr' _. rewrite Ht in Hr'. in_list Hr'.
        unfold course_row. cbn [row_date]. lia. }
      exists st2. rewrite Hsave. cbn [snd]. rewrite <-Hargs.
      split; [exact Hcur|]. vm_compute. reflexivity.
Defined.

(** C2 as stated fails when the clock does not advance between two writes.
    With the second write stamped earlier than the first, every database
    returns the first write; with both writes stamped alike, a database that
    lists equal dates in insertion order returns the first write.  In both
    cases the cache entry was deleted and the lookup went to the table. *)
Lemma current_after_save_earlier_write :
  table skewed_clock_writes = [course_row 1 10 "X" true; course_row 2 5 "X" false]
  ∧ (∀ B : Backend,
       (@current B CourseConfig [VStr "X"] 11 skewed_clock_writes).1
       = Ok (PInst (from_db (course_row 1 10 "X" true))))
  ∧ table same_instant_writes = [course_row 1 10 "X" true; course_row 2 10 "X" false]
  ∧ (@current insertion_order_backend CourseConfig [VStr "X"] 11 same_instant_writes).1
    = Ok (PInst (from_db (course_row 1 10 "X" true)))
  ∧ from_db (course_row 1 10 "X" true) !! "enabled" = Some (VBool true)
  ∧ course_off !! "enabled" = Some (VBool false).
Proof.
  split; [vm_compute; reflexivity|]. split.
  - intros B. rewrite current_miss.
    + cbn [fst]. do 2 f_equal. unfold resolved.
      assert (Hrows : lookup_rows CourseConfig [VStr "X"] (table skewed_clock_writes)
                      = [course_row 1 10 "X" true; course_row 2 5 "X" false])
        by (vm_compute; reflexivity).
      rewrite Hrows.
      destruct (order_by_nonempty [course_row 1 10 "X" true; course_row 2 5 "X" false]
                  (course_row 1 10 "X" true)) as (r & rest & Hord); [left|].
      rewrite Hord. f_equal.
      destruct (order_by_head _ _ _ Hord) as [Hr Hlatest].
      in_list Hr; [reflexivity|].
      assert (H : row_date (course_row 1 10 "X" true)
                  ≤ row_date (course_row 2 5 "X" false)) by (apply Hlatest; left).
      unfold course_row in H. cbn [row_date] in H. lia.
    + apply (bool_decide_unpack _). vm_compute. exact I.
    + right. reflexivity.
    + vm_compute. reflexivity.
  - vm_compute. repeat split; reflexivity.
Qed.

(** ** What [key_values] lists *)

Lemma elem_of_distinct {A} `{EqDecision A} (l : list A) (x : A) :
  x ∈ distinct l ↔ x ∈ l.
Proof. unfold distinct. by rewrite elem_of_reverse, elem_of_remove_dups, elem_of_reverse. Qed.

Lemma NoDup_distinct {A} `{EqDecision A} (l : list A) : NoDup (distinct l).
Proof. unfold distinct. rewrite reverse_Permutation. apply NoDup_remove_dups. Qed.

Lemma values_list_distinct_tuples (cls : Model) (cols : list string) (st : State) :
  cols ≠ [] → Forall (λ f, f ∈ concrete_names cls) cols →
  values_list_distinct cls cols false st
  = (Ok (PTuples (distinct ((λ r, row_attr r <$> cols) <$> table st))), st).
Proof.
  intros Hne Hc. unfold values_list_distinct. cbn [andb].
  rewrite (decide_False (P := cols = [])) by done.
  rewrite decide_True by done. done.
Qed.

(** What [key_values] returns on a miss.  Without [flat] it is, without
    repetition, exactly the combinations of the requested fields that occur
    in some stored row, whatever the row's [enabled] is and whether or not
    the row is the current one of its key tuple.  For the full [KEY_FIELDS]
    every tuple returned has a stored row, and the lookup [current] makes
    for the tuple when it misses the cache finds such a row. *)
Theorem key_values_lists_every_key `{B : Backend} (cls : Model) (fs : list string)
    (kwargs : gmap string value) (now : Z) (st : State) :
  delete "flat" kwargs = ∅ → flat_of kwargs = false →
  let cols := if decide (fs = []) then KEY_FIELDS cls else fs in
  cols ≠ [] → Forall (λ f, f ∈ concrete_names cls) cols →
  cache_get now (key_values_cache_key_name cls fs) (cache st) = None →
  ∃ l,
    key_values cls fs kwargs now st
    = (Ok (PTuples l),
       {| table := table st;
          cache := cache_set now (key_values_cache_key_name cls fs) (PTuples l)
                     (cache_timeout cls) (cache st) |})
    ∧ NoDup l
    ∧ (∀ t, t ∈ l ↔ ∃ r, r ∈ table st ∧ t = row_attr r <$> cols)
    ∧ (well_formed cls → cols = KEY_FIELDS cls → ∀ t, t ∈ l →
         (∃ r0, r0 ∈ table st ∧ key_of cls r0 = t)
         ∧ ∀ now' c, cache_get now' (current_key cls t) c = None →
             ∃ r, r ∈ table st ∧ key_of cls r = t
                  ∧ (current cls t now' {| table := table st; cache := c |}).1
                    = Ok (PInst (from_db r))).
Proof.
  intros Hkw Hflat cols Hne Hc Hmiss.
  exists (distinct ((λ r, row_attr r <$> cols) <$> table st)).
  assert (Hmem : ∀ t, t ∈ distinct ((λ r, row_attr r <$> cols) <$> table st)
                      ↔ ∃ r, r ∈ table st ∧ t = row_attr r <$> cols).
  { intros t. rewrite elem_of_distinct, list_elem_of_fmap.
    split; intros (r & H1 & H2); exists r; done. }
  split; [|split; [apply NoDup_distinct|split; [exact Hmem|]]].
  - rewrite key_values_miss by done. rewrite Hflat. fold cols.
    by rewrite values_list_distinct_tuples.
  - intros Hwf Hcols t Ht. apply Hmem in Ht as (r0 & Hr0 & ->).
    rewrite Hcols. fold (key_of cls r0).
    split; [by exists r0|]. intros now' c Hc'.
    assert (Hlen : length (key_of cls r0) = length (KEY_FIELDS cls)).
    { unfold key_of. by rewrite length_fmap. }
    assert (Hrows : ∀ r, r ∈ lookup_rows cls (key_of cls r0) (table st)
                         ↔ r ∈ table st ∧ key_of cls r = key_of cls r0).
    { intros r. unfold lookup_rows. rewrite list_elem_of_filter.
      rewrite matches_key_of by (apply Hwf || done). tauto. }
    destruct (order_by_nonempty (lookup_rows cls (key_of cls r0) (table st)) r0)
      as (r & rest & Hord); [by apply Hrows|].
    destruct (order_by_head _ _ _ Hord) as [Hr _]. apply Hrows in Hr as [Hr Hk].
    exists r. split; [done|]. split; [done|].
    rewrite current_miss; [|by rewrite <-Hcols|by right|done].
    cbn [fst table]. unfold resolved. by rewrite Hord.
Qed.

Lemma key_values_lists_every_key_witness :
  ∃ l, (key_values Embargo [] ∅ 0
          {| table := [embargo_row 1 0 "Italy" "c1" true;
                       embargo_row 2 1 "Italy" "c1" false;
                       embargo_row 3 2 "France" "c2" false];
             cache := ∅ |}).1 = Ok (PTuples l)
       ∧ l = [[VStr "Italy"; VStr "c1"]; [VStr "France"; VStr "c2"]].
Proof.
  destruct (@key_values_lists_every_key insertion_order_backend Embargo [] ∅ 0
              {| table := [embargo_row 1 0 "Italy" "c1" true;
                           embargo_row 2 1 "Italy" "c1" false;
                           embargo_row 3 2 "France" "c2" false];
                 cache := ∅ |}) as (l & Hkv & _).
  - vm_compute. reflexivity.
  - vm_compute. reflexivity.
  - discriminate.
  - apply (bool_decide_unpack _). vm_compute. exact I.
  - vm_compute. reflexivity.
  - exists l. rewrite Hkv. split; [reflexivity|].
    assert (Hv : (key_values Embargo [] ∅ 0
                    {| table := [embargo_row 1 0 "Italy" "c1" true;
                                 embargo_row 2 1 "Italy" "c1" false;
                                 embargo_row 3 2 "France" "c2" false];
                       cache := ∅ |}).1
                 = Ok (PTuples [[VStr "Italy"; VStr "c1"]; [VStr "France"; VStr "c2"]]))
      by (vm_compute; reflexivity).
    rewrite Hkv in Hv. cbn [fst] in Hv. congruence.
Defined.

(** ** An invariant of the table and the cache *)

Lemma state_ok_empty (cls : Model) : state_ok cls empty_state.
Proof.
  split.
  - intros r Hr. by apply elem_of_nil in Hr.
  - intros args e He. unfold empty_state in He. cbn [cache] in He.
    by rewrite lookup_empty in He.
Qed.

Lemma concrete_names_defaults (cls : Model) (k : string) :
  k ∈ concrete_names cls → is_Some (defaults cls !! k).
Proof.
  intros Hk. apply not_eq_None_Some. intros Hn.
  apply not_elem_of_list_to_map in Hn. apply Hn.
  rewrite <-list_fmap_compose. exact Hk.
Qed.

Lemma complete_constructed (cls : Model) (kwargs : gmap string value) :
  complete cls (kwargs ∪ defaults cls).
Proof.
  apply Forall_forall. intros k Hk.
  destruct (concrete_names_defaults cls k Hk) as [v Hv].
  destruct (kwargs !! k) as [w|] eqn:Hw.
  - exists w. by apply lookup_union_Some_l.
  - exists v. by rewrite lookup_union_r.
Qed.

Lemma complete_inserted (cls : Model) (self : instance) (now : Z) (t : list Row) :
  complete cls self →
  complete cls (from_db (insert_row cls (<["id" := VNone]> self) now t)).
Proof.
  intros Hc. apply Forall_forall. intros k Hk.
  destruct (decide (k = "id")) as [->|Hid].
  { unfold from_db. rewrite lookup_insert_eq. eauto. }
  destruct (decide (k = "change_date")) as [->|Hcd].
  { unfold from_db. rewrite lookup_insert_ne by done. rewrite lookup_insert_eq. eauto. }
  rewrite from_db_insert_row by done.
  unfold complete in Hc. rewrite Forall_forall in Hc. by apply Hc.
Qed.

Lemma complete_has_keys (cls : Model) (i : instance) :
  well_formed cls → complete cls i →
  Forall (λ k, is_Some (i !! k)) (KEY_FIELDS cls).
Proof.
  intros Hwf Hc. apply Forall_forall. intros k Hk.
  unfold complete in Hc. rewrite Forall_forall in Hc.
  by apply Hc, well_formed_concrete.
Qed.

Lemma cache_key_name_Ok_inv (cls : Model) (args : list value) (key : string) :
  cache_key_name cls args = Ok key →
  KEY_FIELDS cls = [] ∨ length args = length (KEY_FIELDS cls).
Proof.
  unfold cache_key_name. destruct (decide (KEY_FIELDS cls ≠ [])) as [|Hn].
  - destruct (decide (length args ≠ length (KEY_FIELDS cls))) as [|Hl]; [done|].
    intros _. right. by apply dec_stable in Hl.
  - intros _. left. by apply dec_stable in Hn.
Qed.

Section invariant.
Context `{B : Backend} (cls : Model).
Hypothesis Hwf : well_formed cls.

Lemma well_formed_all_concrete :
  Forall (λ k, k ∈ concrete_names cls) (KEY_FIELDS cls).
Proof. apply Forall_forall. intros k. by apply well_formed_concrete. Qed.

(** What a miss resolves to is an unsaved instance or a stored row. *)
Lemma resolved_sound (args : list value) (st : State) :
  table_complete cls st →
  complete cls (resolved cls args (table st))
  ∧ (resolved cls args (table st) !! "id" = Some VNone
     ∨ ∃ r, r ∈ lookup_rows cls args (table st)
            ∧ resolved cls args (table st) = from_db r).
Proof.
  intros Ht. unfold resolved.
  destruct (order_by_change_date_desc _) as [|r rest] eqn:Hord.
  - split; [apply complete_constructed|]. left.
    rewrite lookup_union_r; [apply defaults_id|]. apply key_dict_not_key.
    intros Hin. apply (well_formed_not_base cls "id" Hwf Hin). set_solver.
  - destruct (order_by_head _ _ _ Hord) as [Hr _]. split.
    + apply Ht. unfold lookup_rows in Hr. by apply list_elem_of_filter in Hr as [_ Hr].
    + right. eauto.
Qed.

(** Whatever [current] returns in a sound state is an instance of the
    subtype, unsaved or stored, and the state it leaves is sound. *)
Lemma current_sound (args : list value) (now : Z) (st : State) :
  state_ok cls st →
  state_ok cls (current cls args now st).2
  ∧ table (current cls args now st).2 = table st
  ∧ ∀ o, (current cls args now st).1 = Ok o →
      ∃ i, o = PInst i ∧ complete cls i
           ∧ (i !! "id" = Some VNone ∨ ∃ r, r ∈ table st ∧ i = from_db r).
Proof.
  intros [Ht Hc].
  destruct (cache_key_name cls args) as [key|e] eqn:Hkey.
  2: { unfold current. rewrite Hkey. done. }
  pose proof (cache_key_name_Ok_inv _ _ _ Hkey) as Hlen.
  destruct (cache_get now (current_key cls args) (cache st)) as [o|] eqn:Hget.
  - rewrite (current_hit cls args now st o) by done. cbn [fst snd].
    split; [done|]. split; [done|]. intros o' [= <-].
    unfold cache_get in Hget.
    destruct (cache st !! current_key cls args) as [e|] eqn:He; [|done].
    destruct (decide _); [|done]. injection Hget as <-. by eapply Hc.
  - rewrite current_miss by (done || apply well_formed_all_concrete). cbn [fst snd].
    destruct (resolved_sound args st Ht) as [Hcomp Hres].
    assert (Hres' : resolved cls args (table st) !! "id" = Some VNone
                    ∨ ∃ r, r ∈ table st ∧ resolved cls args (table st) = from_db r).
    { destruct Hres as [?|(r & Hr & Heq)]; [by left|right].
      exists r. split; [|done]. unfold lookup_rows in Hr.
      by apply list_elem_of_filter in Hr as [_ Hr]. }
    split; [|split; [done|]].
    + split; [done|]. intros args' e. cbn [cache table]. unfold cache_set.
      destruct (decide (current_key cls args = current_key cls args')) as [<-|Hne].
      * rewrite lookup_insert_eq. intros [= <-]. cbn [cached]. eauto.
      * rewrite lookup_insert_ne by done. apply Hc.
    + intros o [= <-]. eauto.
Qed.

Lemma save_sound (self : instance) (now : Z) (st : State) :
  complete cls self → state_ok cls st → state_ok cls (save cls self now st).2.
Proof.
  intros Hself [Ht Hc]. rewrite save_run by by apply complete_has_keys.
  cbn [snd]. split.
  - intros r. cbn [table]. rewrite elem_of_app, list_elem_of_singleton.
    intros [Hr| ->]; [by apply Ht|by apply complete_inserted].
  - intros args e. cbn [cache table]. intros He.
    assert (He' : cache st !! current_key cls args = Some e).
    { unfold evicted in He. destruct (decide (KEY_FIELDS cls ≠ [])).
      - apply lookup_delete_Some in He as [_ He].
        by apply lookup_delete_Some in He as [_ He].
      - by apply lookup_delete_Some in He as [_ He]. }
    destruct (Hc args e He') as (i & Hi & Hcomp & [Hid|(r & Hr & Heq)]).
    + exists i. auto.
    + exists i. split; [done|]. split; [done|]. right. exists r.
      split; [|done]. apply elem_of_app. by left.
Qed.

Lemma key_values_sound (fs : list string) (kwargs : gmap string value) (now : Z)
    (st : State) :
  state_ok cls st → state_ok cls (key_values cls fs kwargs now st).2.
Proof.
  intros Hok. unfold key_values.
  destruct (decide (delete "flat" kwargs ≠ ∅)); [done|].
  rewrite key_values_key_default. run.
  destruct (cache_get now _ (cache st)); [done|].
  destruct (values_list_distinct cls _ _ st) as [[v|e] st'] eqn:Hv.
  2: { unfold values_list_distinct in Hv. destruct (_ && _); [by injection Hv as _ <-|].
       destruct (decide (Forall _ _)); [done|]. by injection Hv as _ <-. }
  apply values_list_distinct_state in Hv as [-> _]. cbn [snd].
  destruct Hok as [Ht Hc]. split; [done|].
  intros args e. cbn [cache table]. unfold cache_set.
  rewrite lookup_insert_ne; [apply Hc|].
  intros H. symmetry in H. by apply current_key_ne_key_values_key in H.
Qed.

End invariant.

(** ** [equal_to_current] *)

Lemma construct_inv (cls : Model) (kwargs : gmap string value) (i : instance) :
  construct cls kwargs = Ok i → i = kwargs ∪ defaults cls.
Proof.
  unfold construct. destruct (check_kwargs cls _); cbn [mbind result_bind]; congruence.
Qed.

Lemma id_concrete (cls : Model) : "id" ∈ concrete_names cls.
Proof.
  unfold concrete_names, get_fields. rewrite filter_app, filter_base_fields, fmap_app.
  apply elem_of_app. left. simpl. by left.
Qed.

Lemma key_of_from_db (cls : Model) (r : Row) :
  key_of cls r = key_args cls (from_db r).
Proof. reflexivity. Qed.

Lemma key_field_compared (cls : Model) (k : string) :
  well_formed cls → k ∈ KEY_FIELDS cls →
  ∃ f, f ∈ get_fields cls ∧ name f = k ∧ compared default_fields_to_ignore f.
Proof.
  intros Hwf Hk. pose proof (well_formed_concrete cls k Hwf Hk) as Hc.
  unfold concrete_names in Hc.
  apply list_elem_of_fmap in Hc as (f & -> & [Hm Hf]%list_elem_of_filter).
  exists f. split; [done|]. split; [done|]. split; [done|].
  destruct (key_field_not_base cls (name f) Hwf Hk) as (? & ? & ? & _).
  unfold default_fields_to_ignore. intros Hin.
  repeat (apply elem_of_cons in Hin as [Hin|Hin]; [congruence|]).
  by apply elem_of_nil in Hin.
Qed.

(** Instances whose compared fields are equal have equal key tuples. *)
Lemma compared_same_keys (cls : Model) (a b : instance) :
  well_formed cls →
  (∀ f, f ∈ get_fields cls → compared default_fields_to_ignore f →
        py_eq (attr a (name f)) (attr b (name f)) = true) →
  same_key (key_args cls a) (key_args cls b).
Proof.
  intros Hwf H. unfold same_key, key_args.
  apply Forall2_fmap, Forall_Forall2_diag, Forall_forall.
  intros k Hk. destruct (key_field_compared cls k Hwf Hk) as (f & Hf & <- & Hc).
  by apply H.
Qed.

Lemma equal_to_current_run `{B : Backend} (cls : Model) (json : gmap string value)
    (ignore : list string) (now : Z) (st : State) (cand : instance) :
  well_formed cls →
  construct cls (foldr delete json (to_many_names cls)) = Ok cand →
  equal_to_current cls json ignore now st =
    match current cls (key_args cls cand) now st with
    | (Ok cur, st1) =>
        match attr_of cur "id" with
        | Ok id =>
            if decide (id ≠ VNone) then
              match cur with
              | PInst c => (fields_equal cls c cand ignore, st1)
              | _ => (Raise AttributeError, st1)
              end
            else (Ok false, st1)
        | Raise e => (Raise e, st1)
        end
    | (Raise e, st1) => (Raise e, st1)
    end.
Proof.
  intros Hwf Hcons. unfold equal_to_current. rewrite Hcons. run.
  apply construct_inv in Hcons as ->.
  rewrite mapM_getattr by (apply complete_has_keys; [done|apply complete_constructed]).
  fold (key_args cls (foldr delete json (to_many_names cls) ∪ defaults cls)).
  destruct (current cls _ now st) as [[cur|e] st1]; [|done].
  destruct (attr_of cur "id") as [id|e]; [|done].
  destruct (decide (id ≠ VNone)); [|done]. by destruct cur.
Qed.

(** C6. In a state that satisfies the invariant, [equal_to_current] with the
    default [fields_to_ignore] returns [True] only when [current] resolved
    the candidate's key tuple to a stored row of that tuple (its [id] is
    set) and every compared field of the candidate equals the row's value
    (Python's [==]); and it returns [False] whenever no stored row has the
    candidate's key tuple, whatever the candidate holds. *)
Theorem equal_to_current_needs_stored_row `{B : Backend} (cls : Model)
    (json : gmap string value) (now : Z) (st : State) :
  well_formed cls → state_ok cls st →
  let cand := foldr delete json (to_many_names cls) ∪ defaults cls in
  (∀ st', equal_to_current cls json default_fields_to_ignore now st = (Ok true, st') →
     ∃ r, r ∈ table st ∧ same_key (key_of cls r) (key_args cls cand)
          ∧ current cls (key_args cls cand) now st = (Ok (PInst (from_db r)), st')
          ∧ from_db r !! "id" = Some (VInt (row_id r))
          ∧ ∀ f, f ∈ get_fields cls → compared default_fields_to_ignore f →
                 py_eq (attr cand (name f)) (attr (from_db r) (name f)) = true)
  ∧ (construct cls (foldr delete json (to_many_names cls)) = Ok cand →
     (∀ r, r ∈ table st → ¬ same_key (key_of cls r) (key_args cls cand)) →
     (equal_to_current cls json default_fields_to_ignore now st).1 = Ok false).
Proof.
  intros Hwf Hok cand.
  assert (Hcand : complete cls cand) by apply complete_constructed.
  assert (Hstep : ∀ o st1, current cls (key_args cls cand) now st = (Ok o, st1) →
            ∃ i v, o = PInst i ∧ complete cls i ∧ i !! "id" = Some v
                   ∧ (v = VNone ∨ ∃ r, r ∈ table st ∧ i = from_db r)).
  { intros o st1 Hcur.
    destruct (current_sound cls Hwf (key_args cls cand) now st Hok) as (_ & _ & Hs).
    destruct (Hs o) as (i & -> & Hi & Hid); [by rewrite Hcur|].
    assert (His : is_Some (i !! "id")).
    { unfold complete in Hi. rewrite Forall_forall in Hi. apply Hi, id_concrete. }
    destruct His as [v Hv]. exists i, v. split; [done|]. split; [done|]. split; [done|].
    destruct Hid as [Hn|?]; [left; congruence|by right]. }
  assert (Hkeys : ∀ r,
            (∀ f, f ∈ get_fields cls → compared default_fields_to_ignore f →
                  py_eq (attr cand (name f)) (attr (from_db r) (name f)) = true) →
            same_key (key_of cls r) (key_args cls cand)).
  { intros r H. rewrite key_of_from_db. apply compared_same_keys; [done|].
    intros f Hf Hc. rewrite py_eq_sym. by apply H. }
  split.
  - intros st' Heq.
    destruct (construct cls (foldr delete json (to_many_names cls))) as [c|e] eqn:Hcons.
    2: { unfold equal_to_current in Heq. rewrite Hcons in Heq. done. }
    pose proof (construct_inv _ _ _ Hcons) as ->. fold cand in Hcons.
    rewrite (equal_to_current_run cls json _ now st cand Hwf Hcons) in Heq.
    destruct (current cls (key_args cls cand) now st) as [[o|e] st1] eqn:Hcur; [|done].
    destruct (Hstep o st1 eq_refl) as (i & v & -> & Hi & Hv & Hrow).
    cbn [attr_of] in Heq. unfold getattr in Heq. rewrite Hv in Heq.
    destruct (decide (v ≠ VNone)) as [Hne|]; [|done].
    destruct Hrow as [->|(r & Hr & ->)]; [done|].
    rewrite fields_equal_spec in Heq by (done || by apply Hok).
    injection Heq as Heq <-. apply bool_decide_eq_true in Heq.
    rewrite Forall_forall in Heq.
    exists r. split; [done|]. split; [by apply Hkeys|]. split; [done|]. split; [|done].
    unfold from_db. by rewrite lookup_insert_eq.
  - intros Hcons Hnone.
    rewrite (equal_to_current_run cls json _ now st cand Hwf Hcons).
    destruct (current cls (key_args cls cand) now st) as [[o|e] st1] eqn:Hcur.
    + destruct (Hstep o st1 eq_refl) as (i & v & -> & Hi & Hv & Hrow).
      cbn [attr_of]. unfold getattr. rewrite Hv.
      destruct (decide (v ≠ VNone)) as [Hne|]; [|done].
      destruct Hrow as [->|(r & Hr & ->)]; [done|].
      rewrite fields_equal_spec by (done || by apply Hok). cbn [fst]. f_equal.
      apply bool_decide_eq_false. rewrite Forall_forall. intros Hsame.
      by apply (Hnone r Hr), Hkeys.
    + exfalso. clear Hstep.
      pose proof (length_key_args cls cand) as Hlen.
      destruct (cache_get now (current_key cls (key_args cls cand)) (cache st)) eqn:Hg.
      * by rewrite (current_hit cls _ now st p) in Hcur by (by right || done).
      * rewrite current_miss in Hcur; [done| |by right|done].
        by apply well_formed_all_concrete.
Qed.

Lemma equal_to_current_needs_stored_row_witness :
  (@equal_to_current insertion_order_backend CourseConfig {[ "course_id" := VStr "Y" ]}
     default_fields_to_ignore 15 one_write).1 = Ok false.
Proof.
  refine (proj2 (@equal_to_current_needs_stored_row insertion_order_backend CourseConfig
                   {[ "course_id" := VStr "Y" ]} 15 one_write _ _) _ _).
  - apply (bool_decide_unpack _). vm_compute. exact I.
  - apply (save_sound CourseConfig).
    + apply (bool_decide_unpack _). vm_compute. exact I.
    + apply (bool_decide_unpack _). vm_compute. exact I.
    + apply state_ok_empty.
  - vm_compute. reflexivity.
  - assert (Ht : table one_write = [course_row 1 10 "X" true])
      by (vm_compute; reflexivity).
    intros r Hr. rewrite Ht in Hr. in_list Hr.
    intros H. unfold same_key in H. vm_compute in H.
    apply Forall2_cons_1 in H as [H _]. discriminate H.
Defined.

(** ** Key tuples with the same key string *)

(** C8 at the failing input: the tuple [key_values] lists has a stored row,
    yet [current] for that tuple is served the unsaved instance cached under
    the shared key string. *)
Lemma key_values_tuple_served_unsaved :
  cache_key_name Embargo [VStr "Korea, Republic of"; VStr "c1"]
  = cache_key_name Embargo [VStr "Korea"; VStr " Republic of,c1"]
  ∧ (key_values Embargo [] ∅ 12
       (@current insertion_order_backend Embargo [VStr "Korea"; VStr " Republic of,c1"] 11
          (save Embargo embargo_korea 10 empty_state).2).2).1
    = Ok (PTuples [[VStr "Korea, Republic of"; VStr "c1"]])
  ∧ (key_of Embargo <$> table aliased_lookup) = [[VStr "Korea, Republic of"; VStr "c1"]]
  ∧ ∃ i, (@current insertion_order_backend Embargo
            [VStr "Korea, Republic of"; VStr "c1"] 13 aliased_lookup).1 = Ok (PInst i)
         ∧ i !! "id" = Some VNone
         ∧ i !! "country" = Some (VStr "Korea").
Proof.
  split; [vm_compute; reflexivity|]. split; [vm_compute; reflexivity|].
  split; [vm_compute; reflexivity|].
  eexists. split; [vm_compute; reflexivity|]. split; vm_compute; reflexivity.
Qed.

(** * Further properties *)

(** ** Reads leave the table alone *)

Section table_frame.
Context `{B : Backend} (cls : Model).

Lemma current_table (args : list value) (now : Z) (st : State) :
  table (current cls args now st).2 = table st.
Proof.
  unfold current. destruct (cache_key_name cls args) as [key|e]; [|done]. run.
  destruct (cache_get now key (cache st)); [done|].
  unfold objects_filter. destruct (decide (map_Forall _ _)); [|done]. run.
  destruct (order_by_change_date_desc _); [|done].
  by destruct (construct cls _).
Qed.

Lemma key_values_table (fs : list string) (kwargs : gmap string value) (now : Z)
    (st : State) :
  table (key_values cls fs kwargs now st).2 = table st.
Proof.
  unfold key_values. destruct (decide (delete "flat" kwargs ≠ ∅)); [done|]. run.
  destruct (cache_get now _ (cache st)); [done|].
  unfold values_list_distinct. destruct (_ && _); [done|].
  by destruct (decide (Forall _ _)).
Qed.

Lemma is_enabled_state (args : list value) (now : Z) (st : State) :
  (is_enabled cls args now st).2 = (current cls args now st).2.
Proof.
  unfold is_enabled. run. destruct (current cls args now st) as [[o|e] st']; [|done].
  cbn [snd]. by destruct (attr_of o "enabled").
Qed.

Lemma equal_to_current_state (json : gmap string value) (ignore : list string)
    (now : Z) (st : State) :
  (equal_to_current cls json ignore now st).2 = st
  ∨ ∃ args, (equal_to_current cls json ignore now st).2 = (current cls args now st).2.
Proof.
  unfold equal_to_current. run.
  destruct (construct cls _) as [cand|e]; [|by left]. cbn [mbind result_bind].
  destruct (mapM (getattr cand) (KEY_FIELDS cls)) as [args|e]; [|by left].
  right. exists args.
  destruct (current cls args now st) as [[o|e] st']; [|done]. cbn [snd].
  destruct (attr_of o "id") as [id|e]; [|done].
  destruct (decide (id ≠ VNone)); [|done].
  by destruct o.
Qed.

Lemma with_active_flag_state (now : Z) (st : State) :
  (with_active_flag cls now st).2 = st
  ∨ (with_active_flag cls now st).2 = (current cls [] now st).2.
Proof.
  unfold with_active_flag. destruct (decide (KEY_FIELDS cls ≠ [])); [by left|].
  right. run. destruct (current cls [] now st) as [[o|e] st']; [|done]. cbn [snd].
  destruct (attr_of o "id") as [[]|e]; done.
Qed.

Lemma current_set_state (st : State) : (current_set cls st).2 = st.
Proof. unfold current_set. by destruct (decide (KEY_FIELDS cls ≠ [])). Qed.

(** X1. Only [save] writes to the table: whatever they return or raise,
    [current], [is_enabled], [key_values], [equal_to_current], [current_set]
    and [with_active_flag] leave every row as it was, and [save] on an
    instance that has its key fields appends one row and touches no other. *)
Theorem only_save_writes_rows (c : call) (st : State) :
  match c with
  | CallSave self now =>
      Forall (λ k, is_Some (self !! k)) (KEY_FIELDS cls) →
      table (after cls c st)
      = table st ++ [insert_row cls (<["id" := VNone]> self) now (table st)]
  | _ => table (after cls c st) = table st
  end.
Proof.
  destruct c as [self now|args now|args now|fs kw now|json ign now| |now]; cbn [after].
  - intros Hk. by rewrite save_run.
  - apply current_table.
  - rewrite is_enabled_state. apply current_table.
  - apply key_values_table.
  - destruct (equal_to_current_state json ign now st) as [->|[args ->]];
      [done|apply current_table].
  - by rewrite current_set_state.
  - destruct (with_active_flag_state now st) as [->| ->]; [done|apply current_table].
Qed.

End table_frame.

(** ** Sequences of calls *)

Section call_sequences.
Context `{B : Backend} (cls : Model).

Lemma save_table (self : instance) (now : Z) (st : State) :
  table (save cls self now st).2
  = table st ++ [insert_row cls (<["id" := VNone]> self) now (table st)].
Proof.
  unfold save. run. destruct (mapM _ (KEY_FIELDS cls)) as [keys|e]; [|done].
  cbn [mbind result_bind]. destruct (cache_key_name cls keys) as [key|e]; [|done].
  by destruct (decide (KEY_FIELDS cls ≠ [])).
Qed.

Lemma after_table (c : call) (st : State) :
  table (after cls c st) = table st
  ∨ ∃ self now, table (after cls c st)
                = table st ++ [insert_row cls (<["id" := VNone]> self) now (table st)].
Proof.
  destruct c as [self now|args now|args now|fs kw now|json ign now| |now].
  - right. exists self, now. apply save_table.
  - left. apply current_table.
  - left. cbn [after]. rewrite is_enabled_state. apply current_table.
  - left. apply key_values_table.
  - left. cbn [after].
    destruct (equal_to_current_state cls json ign now st) as [->|[args ->]];
      [done|apply current_table].
  - left. cbn [after]. by rewrite current_set_state.
  - left. cbn [after].
    destruct (with_active_flag_state cls now st) as [->| ->]; [done|apply current_table].
Qed.

Lemma after_calls_snoc (cs : list call) (c : call) :
  after_calls cls (cs ++ [c]) = after cls c (after_calls cls cs).
Proof. unfold after_calls. by rewrite foldl_snoc. Qed.

(** X2. Identifiers are never reused: after any sequence of calls on an
    empty table the stored rows carry strictly increasing identifiers in the
    order they were written. *)
Theorem identifiers_increase (cs : list call) :
  StronglySorted Z.lt (row_id <$> table (after_calls cls cs)).
Proof.
  induction cs as [|c cs IH] using rev_ind; [constructor|].
  rewrite after_calls_snoc.
  destruct (after_table c (after_calls cls cs)) as [->|(self & now & ->)]; [done|].
  rewrite fmap_app. apply StronglySorted_app_2; [|done|repeat constructor].
  intros x1 x2 [r [-> Hr]]%list_elem_of_fmap Hx2.
  apply list_elem_of_singleton in Hx2 as ->. cbn [insert_row row_id].
  by apply next_id_above.
Qed.

End call_sequences.

Section reachable_states.
Context `{B : Backend} (cls : Model).
Hypothesis Hwf : well_formed cls.

Lemma after_sound (c : call) (st : State) :
  call_ok cls c → state_ok cls st → state_ok cls (after cls c st).
Proof.
  intros Hc Hok.
  destruct c as [self now|args now|args now|fs kw now|json ign now| |now]; cbn [after].
  - by apply save_sound.
  - by apply current_sound.
  - rewrite is_enabled_state. by apply current_sound.
  - by apply key_values_sound.
  - destruct (equal_to_current_state cls json ign now st) as [->|[args ->]];
      [done|by apply current_sound].
  - by rewrite current_set_state.
  - destruct (with_active_flag_state cls now st) as [->| ->];
      [done|by apply current_sound].
Qed.

Lemma after_calls_sound (cs : list call) :
  Forall (call_ok cls) cs → state_ok cls (after_calls cls cs).
Proof.
  induction cs as [|c cs IH] using rev_ind; intros Hcs.
  - apply state_ok_empty.
  - apply Forall_app in Hcs as [Hcs Hc]. rewrite Forall_singleton in Hc.
    rewrite after_calls_snoc. apply after_sound; [exact Hc|by apply IH].
Qed.

End reachable_states.

(** X3. After any sequence of calls on an empty table and cache, every row
    has a value in every column, and whatever [current] returns, from the
    cache or from the table, is an instance of the subtype that is either
    unsaved ([id] is [None]) or equal to a row stored in the table: the
    cache never serves a row that was not written. *)
Theorem current_serves_stored_rows `{B : Backend} (cls : Model) (cs : list call)
    (args : list value) (now : Z) (o : pyobj) :
  well_formed cls → Forall (call_ok cls) cs →
  (current cls args now (after_calls cls cs)).1 = Ok o →
  ∃ i, o = PInst i ∧ complete cls i
       ∧ (i !! "id" = Some VNone
          ∨ ∃ r, r ∈ table (after_calls cls cs) ∧ i = from_db r).
Proof.
  intros Hwf Hcs Hcur.
  destruct (current_sound cls Hwf args now (after_calls cls cs)) as (_ & _ & H).
  - by apply after_calls_sound.
  - by apply H.
Qed.

Lemma current_serves_stored_rows_witness :
  ∃ i, PInst (from_db (course_row 1 10 "X" true)) = PInst i
       ∧ complete CourseConfig i
       ∧ (i !! "id" = Some VNone
          ∨ ∃ r, r ∈ table (@after_calls insertion_order_backend CourseConfig
                              [CallSave course_on 10; CallCurrent [VStr "X"] 11])
                 ∧ i = from_db r).
Proof.
  apply (@current_serves_stored_rows insertion_order_backend CourseConfig
           [CallSave course_on 10; CallCurrent [VStr "X"] 11] [VStr "X"] 12).
  - apply (bool_decide_unpack _). vm_compute. exact I.
  - constructor; [|constructor; [exact I|constructor]].
    cbn [call_ok]. apply (bool_decide_unpack _). vm_compute. exact I.
  - vm_compute. reflexivity.
Defined.

(** ** Errors and the flat form of [key_values] *)

(** X4. A keyword other than [flat] makes [key_values] fail its assertion
    before the cache is read, whatever is cached.  [flat] with more than one
    field is refused by [values_list] only when the call misses the cache,
    and then nothing is stored; on a hit the cached value is returned and no
    error is raised. *)
Theorem key_values_errors (cls : Model) (fs : list string)
    (kwargs : gmap string value) (now : Z) (st : State) :
  (delete "flat" kwargs ≠ ∅ →
     key_values cls fs kwargs now st = (Raise AssertionError, st))
  ∧ (delete "flat" kwargs = ∅ → flat_of kwargs = true → (1 < length fs)%nat →
       (cache_get now (key_values_cache_key_name cls fs) (cache st) = None →
          key_values cls fs kwargs now st = (Raise TypeError, st))
       ∧ ∀ v, cache_get now (key_values_cache_key_name cls fs) (cache st) = Some v →
              key_values cls fs kwargs now st = (Ok v, st)).
Proof.
  split.
  - intros Hkw. unfold key_values. by rewrite decide_True.
  - intros Hkw Hflat Hlen. split.
    + intros Hmiss. rewrite key_values_miss by done.
      assert (Hfs : fs ≠ []) by (intros ->; simpl in Hlen; lia).
      rewrite decide_False by done. unfold values_list_distinct.
      rewrite Hflat. by rewrite bool_decide_eq_true_2.
    + intros v Hhit. by apply key_values_hit.
Qed.

Lemma key_values_errors_witness :
  key_values Embargo ["country"; "course"] {[ "flat" := VBool true ]} 0 empty_state
  = (Raise TypeError, empty_state).
Proof.
  destruct (key_values_errors Embargo ["country"; "course"] {[ "flat" := VBool true ]}
              0 empty_state) as [_ H].
  destruct H as [H _].
  - vm_compute. reflexivity.
  - vm_compute. reflexivity.
  - simpl. lia.
  - apply H. vm_compute. reflexivity.
Defined.

(** X5. On a miss, [key_values] for one column with [flat] returns a flat
    list that holds, without repetition, exactly the values the column takes
    in the stored rows, and stores that list in the cache. *)
Theorem key_values_flat_column (cls : Model) (f : string)
    (kwargs : gmap string value) (now : Z) (st : State) :
  delete "flat" kwargs = ∅ → flat_of kwargs = true →
  f ∈ concrete_names cls →
  cache_get now (key_values_cache_key_name cls [f]) (cache st) = None →
  ∃ l,
    key_values cls [f] kwargs now st
    = (Ok (PFlat l),
       {| table := table st;
          cache := cache_set now (key_values_cache_key_name cls [f]) (PFlat l)
                     (cache_timeout cls) (cache st) |})
    ∧ NoDup l
    ∧ ∀ v, v ∈ l ↔ ∃ r, r ∈ table st ∧ v = row_attr r f.
Proof.
  intros Hkw Hflat Hf Hmiss.
  exists ((λ tup, default VNone (head tup))
            <$> distinct ((λ r, row_attr r <$> [f]) <$> table st)).
  split; [|split].
  - rewrite key_values_miss by done. rewrite decide_False by done.
    unfold values_list_distinct. rewrite Hflat. cbn [andb length].
    rewrite bool_decide_eq_false_2 by lia.
    rewrite (decide_False (P := [f] = [])) by done.
    rewrite decide_True; [done|]. by apply Forall_singleton.
  - apply NoDup_fmap_2_strong; [|apply NoDup_distinct].
    intros x y Hx Hy. rewrite elem_of_distinct in Hx, Hy.
    apply list_elem_of_fmap in Hx as (rx & -> & _).
    apply list_elem_of_fmap in Hy as (ry & -> & _).
    cbn. by intros ->.
  - intros v. rewrite list_elem_of_fmap. split.
    + intros (tup & -> & Ht). rewrite elem_of_distinct in Ht.
      apply list_elem_of_fmap in Ht as (r & -> & Hr). by exists r.
    + intros (r & Hr & ->). exists [row_attr r f]. split; [done|].
      apply elem_of_distinct, list_elem_of_fmap. by exists r.
Qed.

Lemma key_values_flat_column_witness :
  ∃ l, (key_values Embargo ["country"] {[ "flat" := VBool true ]} 0
          {| table := [embargo_row 1 0 "Italy" "c1" true;
                       embargo_row 2 1 "Italy" "c2" false];
             cache := ∅ |}).1 = Ok (PFlat l)
       ∧ NoDup l.
Proof.
  destruct (key_values_flat_column Embargo "country" {[ "flat" := VBool true ]} 0
              {| table := [embargo_row 1 0 "Italy" "c1" true;
                           embargo_row 2 1 "Italy" "c2" false];
                 cache := ∅ |}) as (l & Hkv & Hnd & _).
  - vm_compute. reflexivity.
  - vm_compute. reflexivity.
  - apply (bool_decide_unpack _). vm_compute. exact I.
  - vm_compute. reflexivity.
  - exists l. rewrite Hkv. split; [reflexivity|exact Hnd].
Defined.

(** ** [save] followed by a read *)








(** ** [equal_to_current] after [save] *)

Lemma foldr_delete_absent (json : gmap string value) (ks : list string) :
  Forall (λ k, json !! k = None) ks → foldr delete json ks = json.
Proof.
  induction 1 as [|k ks Hk _ IH]; simpl; [done|].
  rewrite IH. by apply delete_id.
Qed.

Lemma compared_concrete (cls : Model) (ignore : list string) (f : Field) :
  f ∈ get_fields cls → compared ignore f → name f ∈ concrete_names cls.
Proof.
  intros Hf [Hm _]. unfold concrete_names. apply list_elem_of_fmap.
  exists f. split; [done|]. by apply list_elem_of_filter.
Qed.

Lemma compared_default_not_stamped (f : Field) :
  compared default_fields_to_ignore f → name f ≠ "id" ∧ name f ≠ "change_date".
Proof.
  intros [_ Hn]. unfold default_fields_to_ignore in Hn.
  split; intros Heq; apply Hn; rewrite Heq; set_solver.
Qed.

(** What [equal_to_current] answers about a candidate whose key tuple is
    the one of an instance just saved. *)
Lemma equal_to_current_vs_saved `{B : Backend} (cls : Model) (self : instance)
    (json : gmap string value) (now now' : Z) (st : State) :
  well_formed cls → complete cls self →
  (∀ r, r ∈ table st → key_of cls r = key_args cls self → row_date r < now) →
  map_Forall (λ k _, k ∈ concrete_names cls ∧ k ∉ to_many_names cls) json →
  key_args cls (json ∪ defaults cls) = key_args cls self →
  (equal_to_current cls json default_fields_to_ignore now' (save cls self now st).2).1
  = Ok (bool_decide (Forall (λ f, compared default_fields_to_ignore f →
                                  py_eq (attr (json ∪ defaults cls) (name f))
                                        (attr self (name f)) = true)
                            (get_fields cls))).
Proof.
  intros Hwf Hself Hlater Hjson Hkey.
  pose proof (complete_has_keys cls self Hwf Hself) as Hkeys.
  pose proof (current_after_save_row cls self now now' st Hwf Hkeys Hlater) as Hcur.
  assert (Hdel : foldr delete json (to_many_names cls) = json).
  { apply foldr_delete_absent, Forall_forall. intros m Hm.
    destruct (json !! m) as [w|] eqn:Hw; [|done].
    destruct (Hjson m w Hw) as [_ Hn]. done. }
  assert (Hcons : construct cls (foldr delete json (to_many_names cls))
                  = Ok (json ∪ defaults cls)).
  { rewrite Hdel. apply construct_ok. intros k w Hw. by apply (Hjson k w). }
  rewrite (equal_to_current_run cls json _ now' _ _ Hwf Hcons). rewrite Hkey.
  destruct (current cls (key_args cls self) now' (save cls self now st).2)
    as [o st2]. cbn [fst] in Hcur. subst o.
  cbn [attr_of]. unfold getattr. rewrite from_db_id.
  rewrite decide_True by done.
  rewrite fields_equal_spec;
    [|by apply complete_inserted|apply complete_constructed].
  cbn [fst]. f_equal. apply bool_decide_ext. rewrite !Forall_forall.
  assert (Hread : ∀ f, f ∈ get_fields cls → compared default_fields_to_ignore f →
            attr (from_db (insert_row cls (<["id" := VNone]> self) now (table st)))
                 (name f) = attr self (name f)).
  { intros f Hf Hc. destruct (compared_default_not_stamped f Hc) as [? ?].
    unfold attr. rewrite from_db_insert_row; [done|by eapply compared_concrete|done..]. }
  split; intros H f Hf Hc; specialize (H f Hf Hc);
    [by rewrite <-Hread|by rewrite Hread].
Qed.

(** X9. [equal_to_current] recognises a write that changes nothing: called
    with the field values of an instance just saved (values of the kinds
    the columns store, stamped strictly later than the stored rows of its
    key tuple) it returns [True], and with an unequal value (Python's [!=])
    in a compared field outside [KEY_FIELDS] it returns [False]. *)
Theorem equal_to_current_after_save `{B : Backend} (cls : Model) (self : instance)
    (now now' : Z) (st : State) :
  well_formed cls → complete cls self → typed cls self →
  (∀ r, r ∈ table st → key_of cls r = key_args cls self → row_date r < now) →
  map_Forall (λ k _, k ∈ concrete_names cls ∧ k ∉ to_many_names cls) self →
  (equal_to_current cls self default_fields_to_ignore now' (save cls self now st).2).1
  = Ok true
  ∧ ∀ f v, f ∈ get_fields cls → compared default_fields_to_ignore f →
           name f ∉ KEY_FIELDS cls → name f ∉ to_many_names cls →
           py_eq v (attr self (name f)) = false →
           (equal_to_current cls (<[name f := v]> self) default_fields_to_ignore now'
              (save cls self now st).2).1 = Ok false.
Proof.
  intros Hwf Hself _ Hlater Hdom.
  assert (Hsame : ∀ k, k ∈ concrete_names cls → (self ∪ defaults cls) !! k = self !! k).
  { intros k Hk. unfold complete in Hself. rewrite Forall_forall in Hself.
    destruct (Hself k Hk) as [w Hw]. rewrite Hw. by apply lookup_union_Some_l. }
  split.
  - rewrite equal_to_current_vs_saved; [|done..|].
    + f_equal. apply bool_decide_eq_true. apply Forall_forall. intros f Hf Hc.
      unfold attr. rewrite Hsame by (by eapply compared_concrete). apply py_eq_refl.
    + unfold key_args. apply Forall_fmap_ext, Forall_forall. intros k Hk.
      rewrite Hsame; [done|]. by apply well_formed_concrete.
  - intros f v Hf Hc Hnk Hntm Hne.
    rewrite equal_to_current_vs_saved; [|done..| |].
    + f_equal. apply bool_decide_eq_false. rewrite Forall_forall. intros H.
      specialize (H f Hf Hc). unfold attr at 1 in H.
      erewrite lookup_union_Some_l in H; [|apply lookup_insert_eq].
      simpl in H. congruence.
    + intros k w Hw. destruct (decide (name f = k)) as [<-|Hk].
      * split; [by eapply compared_concrete|done].
      * rewrite lookup_insert_ne in Hw by done. by apply (Hdom k w).
    + unfold key_args. apply Forall_fmap_ext, Forall_forall. intros k Hk.
      assert (name f ≠ k) by (intros <-; done).
      rewrite <-(Hsame k) by (by apply well_formed_concrete).
      destruct (self !! k) as [w|] eqn:Hw.
      * erewrite !lookup_union_Some_l; [done|done|]. by rewrite lookup_insert_ne.
      * rewrite !lookup_union_r; [done|done|]. by rewrite lookup_insert_ne.
Qed.

Lemma equal_to_current_after_save_witness :
  (@equal_to_current insertion_order_backend CourseConfig course_off
     default_fields_to_ignore 21 (save CourseConfig course_off 20 one_write).2).1
  = Ok true.
Proof.
  refine (proj1 (@equal_to_current_after_save insertion_order_backend CourseConfig
                   course_off 20 21 one_write _ _ _ _ _)).
  - apply (bool_decide_unpack _). vm_compute. exact I.
  - apply (bool_decide_unpack _). vm_compute. exact I.
  - apply (bool_decide_unpack _). vm_compute. exact I.
  - assert (Ht : table one_write = [course_row 1 10 "X" true])
      by (vm_compute; reflexivity).
    intros r Hr _. rewrite Ht in Hr. in_list Hr.
    unfold course_row. cbn [row_date]. lia.
  - apply (bool_decide_unpack _). vm_compute. exact I.
Defined.

(** ** To-many relations in the candidate *)

Lemma lookup_foldr_delete (json : gmap string value) (ks : list string) (k : string) :
  foldr delete json ks !! k = if decide (k ∈ ks) then None else json !! k.
Proof.
  induction ks as [|k' ks IH]; cbn [foldr].
  - destruct (decide (k ∈ [])) as [Hin|]; [by apply elem_of_nil in Hin|done].
  - destruct (decide (k' = k)) as [->|Hne].
    + rewrite lookup_delete_eq.
      destruct (decide (k ∈ k :: ks)) as [|Hn]; [done|]. destruct Hn. by left.
    + rewrite lookup_delete_ne by done. rewrite IH.
      destruct (decide (k ∈ ks)) as [Hin|Hnin];
        destruct (decide (k ∈ k' :: ks)) as [Hin'|Hnin']; try done.
      * destruct Hnin'. by right.
      * apply elem_of_cons in Hin' as [?|?]; congruence.
Qed.

Lemma check_kwargs_refused (cls : Model) (ks : list string) (k : string) :
  k ∈ ks → k ∉ concrete_names cls → ∃ e, check_kwargs cls ks = Raise e.
Proof.
  intros Hin Hk. induction ks as [|k' ks IH]; [by apply elem_of_nil in Hin|].
  simpl. destruct (check_kwarg cls k') as [[]|e] eqn:Hck; [|by exists e].
  cbn [mbind result_bind]. apply elem_of_cons in Hin as [->|Hin]; [|by apply IH].
  unfold check_kwarg in Hck. rewrite decide_False in Hck by done.
  by destruct (decide (k' ∈ to_many_names cls)).
Qed.

(** X10. [equal_to_current] drops the to-many relations from the candidate
    before it builds the instance: an entry for a to-many relation in [json]
    changes neither the answer nor the state left.  Building the instance
    with such an entry (a name that is not a column) would raise. *)
Theorem equal_to_current_drops_to_many `{B : Backend} (cls : Model)
    (json : gmap string value) (m : string) (v : value)
    (ignore : list string) (now : Z) (st : State) :
  m ∈ to_many_names cls →
  equal_to_current cls (<[m := v]> json) ignore now st
  = equal_to_current cls json ignore now st
  ∧ (m ∉ concrete_names cls → ∃ e, construct cls (<[m := v]> json) = Raise e).
Proof.
  intros Hm. split.
  - unfold equal_to_current.
    assert (Heq : foldr delete (<[m := v]> json) (to_many_names cls)
                  = foldr delete json (to_many_names cls)); [|by rewrite Heq].
    apply map_eq. intros k. rewrite !lookup_foldr_delete.
    destruct (decide (k ∈ to_many_names cls)) as [|Hn]; [done|].
    apply lookup_insert_ne. by intros ->.
  - intros Hn. unfold construct.
    destruct (check_kwargs_refused cls (map_to_list (<[m := v]> json)).*1 m) as [e He].
    + apply list_elem_of_fmap. exists (m, v). split; [done|].
      apply elem_of_map_to_list, lookup_insert_eq.
    + done.
    + exists e. by rewrite He.
Qed.

Lemma equal_to_current_drops_to_many_witness :
  @equal_to_current insertion_order_backend CourseConfig
    (<["tags" := VStr "a"]> course_on) default_fields_to_ignore 11 one_write
  = @equal_to_current insertion_order_backend CourseConfig course_on
      default_fields_to_ignore 11 one_write.
Proof.
  refine (proj1 (@equal_to_current_drops_to_many insertion_order_backend CourseConfig
                   course_on "tags" (VStr "a") default_fields_to_ignore 11 one_write _)).
  apply (bool_decide_unpack _). vm_compute. exact I.
Defined.

(** ** [fields_equal] as a relation *)

(** X11. On instances of the subtype and for any [fields_to_ignore],
    [fields_equal] does not depend on which of the two instances is [self],
    and an instance equals itself. *)
Theorem fields_equal_symmetric (cls : Model) (a b : instance) (ignore : list string) :
  complete cls a → complete cls b →
  fields_equal cls a b ignore = fields_equal cls b a ignore
  ∧ fields_equal cls a a ignore = Ok true.
Proof.
  intros Ha Hb. rewrite !fields_equal_spec by done. split.
  - f_equal. apply bool_decide_ext. rewrite !Forall_forall.
    split; intros H f Hf Hc; rewrite py_eq_sym; by apply H.
  - f_equal. apply bool_decide_eq_true. apply Forall_forall.
    intros f _ _. apply py_eq_refl.
Qed.

Lemma fields_equal_symmetric_witness :
  fields_equal CourseConfig course_on course_off ["enabled"]
  = fields_equal CourseConfig course_off course_on ["enabled"].
Proof.
  refine (proj1 (fields_equal_symmetric CourseConfig course_on course_off ["enabled"]
                   _ _)).
  - apply (bool_decide_unpack _). vm_compute. exact I.
  - apply (bool_decide_unpack _). vm_compute. exact I.
Defined.

(** ** The [MAX(id)] subquery, [current_set] and [with_active_flag] *)

Lemma foldr_max_elem (b : Z) (l : list Z) : foldr Z.max b l ∈ b :: l.
Proof.
  induction l as [|y l IH]; simpl; [by left|].
  destruct (Z.max_spec y (foldr Z.max b l)) as [[_ ->]|[_ ->]].
  - apply elem_of_cons in IH as [->|IH]; [by left|]. right. by right.
  - right. by left.
Qed.

Lemma sql_max_inv (l : list Z) (m : Z) :
  sql_max l = Some m → m ∈ l ∧ ∀ x, x ∈ l → x ≤ m.
Proof.
  destruct l as [|n l]; [done|]. simpl. intros [= <-]. split.
  - apply foldr_max_elem.
  - intros x [->|Hx]%elem_of_cons; [apply foldr_max_base|by apply foldr_max_ge].
Qed.


Lemma group_ids_elem (cls : Model) (t : list Row) (g : list value) (n : Z) :
  n ∈ row_id <$> filter (λ r, key_of cls r = g) t
  ↔ ∃ r, r ∈ t ∧ key_of cls r = g ∧ row_id r = n.
Proof.
  rewrite list_elem_of_fmap. split.
  - intros (r & -> & [Hk Hr]%list_elem_of_filter). eauto.
  - intros (r & Hr & Hk & <-). exists r. split; [done|].
    by apply list_elem_of_filter.
Qed.

Lemma subquery_ids_newest (cls : Model) (t : list Row) (n : Z) :
  n ∈ _current_ids_subquery cls t → ∃ r, newest_of_key cls t r ∧ row_id r = n.
Proof.
  unfold _current_ids_subquery. intros (g & Hg & Hmax)%list_elem_of_omap.
  apply sql_max_inv in Hmax as [Hn Hle].
  apply group_ids_elem in Hn as (r & Hr & Hk & <-).
  exists r. split; [|done]. split; [done|].
  intros r' Hr' Hk'. apply Hle, group_ids_elem. exists r'. by rewrite Hk', Hk.
Qed.


Lemma subquery_newest (cls : Model) (t : list Row) (r : Row) :
  NoDup (row_id <$> t) → r ∈ t →
  row_id r ∈ _current_ids_subquery cls t ↔ newest_of_key cls t r.
Proof.
  intros Hnd Hr. split.
  - intros Hin. destruct (subquery_ids_newest cls t _ Hin) as (r' & Hnew & Heq).
    assert (r' = r) as ->; [|done].
    eapply (NoDup_fmap_eq row_id); [done|apply Hnew|done|done].
  - intros [_ Hmax]. by apply max_id_in_subquery.
Qed.

Lemma newest_of_key_exists (cls : Model) (t : list Row) (r0 : Row) :
  r0 ∈ t → ∃ r, newest_of_key cls t r ∧ key_of cls r = key_of cls r0.
Proof.
  intros Hr0.
  destruct (sql_max (row_id <$> filter (λ r, key_of cls r = key_of cls r0) t))
    as [m|] eqn:Hmax.
  - apply sql_max_inv in Hmax as [Hm Hle].
    apply group_ids_elem in Hm as (r & Hr & Hk & <-).
    exists r. split; [|done]. split; [done|].
    intros r' Hr' Hk'. apply Hle, group_ids_elem. exists r'. by rewrite Hk', Hk.
  - assert (Hin : row_id r0 ∈ row_id <$> filter (λ r, key_of cls r = key_of cls r0) t).
    { apply group_ids_elem. eauto. }
    destruct (row_id <$> filter _ t); [by apply elem_of_nil in Hin|done].
Qed.

Lemma NoDup_rows_of_ids (t : list Row) : NoDup (row_id <$> t) → NoDup t.
Proof. apply NoDup_fmap_1. Qed.

(** X13. [current_set] fails its assertion when [KEY_FIELDS] is empty.
    Otherwise, on a table with distinct ids, it returns, newest date first
    and annotated with [is_active = 1], exactly the rows that have the
    highest id of their key tuple: one row for every key tuple that occurs
    in the table and no two rows with the same key tuple.  The state is left
    as it was. *)
Theorem current_set_one_row_per_key `{B : Backend} (cls : Model) (st : State) :
  (KEY_FIELDS cls = [] → current_set cls st = (Raise AssertionError, st))
  ∧ (KEY_FIELDS cls ≠ [] → NoDup (row_id <$> table st) →
     ∃ rows,
       current_set cls st
       = (Ok ((λ r, <["is_active" := VInt 1]> (from_db r)) <$> rows), st)
       ∧ (∀ r, r ∈ rows ↔ newest_of_key cls (table st) r)
       ∧ NoDup (key_of cls <$> rows)
       ∧ (∀ r0, r0 ∈ table st → key_of cls r0 ∈ key_of cls <$> rows)
       ∧ StronglySorted newer_or_equal rows).
Proof.
  split.
  - intros He. unfold current_set. rewrite decide_False; [done|]. by intros [].
  - intros Hne Hnd.
    pose (sel := filter (λ r, row_id r ∈ _current_ids_subquery cls (table st))
                   (table st)).
    exists (order_by_change_date_desc sel).
    assert (Hmem : ∀ r, r ∈ order_by_change_date_desc sel
                        ↔ newest_of_key cls (table st) r).
    { intros r. rewrite order_by_elem_of. unfold sel. rewrite list_elem_of_filter.
      split.
      - intros [Hin Hr]. by apply subquery_newest.
      - intros Hnew. split; [|apply Hnew]. apply subquery_newest; [done|apply Hnew|done]. }
    split; [|split; [exact Hmem|split; [|split]]].
    + unfold current_set. by rewrite decide_True.
    + apply NoDup_fmap_2_strong.
      * intros x y Hx Hy Hk. apply Hmem in Hx as [Hx Hxm], Hy as [Hy Hym].
        apply (NoDup_fmap_eq row_id (table st)); [done..|].
        assert (row_id x ≤ row_id y) by (by apply Hym).
        assert (row_id y ≤ row_id x) by (by apply Hxm). lia.
      * rewrite order_by_permutation. unfold sel.
        apply NoDup_filter. by apply NoDup_rows_of_ids.
    + intros r0 Hr0. destruct (newest_of_key_exists cls (table st) r0 Hr0)
        as (r & Hnew & Hk).
      apply list_elem_of_fmap. exists r. split; [done|]. by apply Hmem.
    + apply order_by_sorted.
Qed.

Lemma current_set_one_row_per_key_witness :
  ∃ rows,
    (@current_set insertion_order_backend CourseConfig
       {| table := [course_row 1 10 "X" true; course_row 2 20 "X" false;
                    course_row 3 30 "Y" true];
          cache := ∅ |}).1
    = Ok ((λ r, <["is_active" := VInt 1]> (from_db r)) <$> rows)
    ∧ NoDup (key_of CourseConfig <$> rows).
Proof.
  destruct (@current_set_one_row_per_key insertion_order_backend CourseConfig
              {| table := [course_row 1 10 "X" true; course_row 2 20 "X" false;
                           course_row 3 30 "Y" true];
                 cache := ∅ |}) as [_ H].
  destruct H as (rows & Hset & _ & Hnd & _).
  - discriminate.
  - apply (bool_decide_unpack _). vm_compute. exact I.
  - exists rows. rewrite Hset. split; [reflexivity|exact Hnd].
Defined.

(** X14. With non-empty [KEY_FIELDS], on a table with distinct ids,
    [with_active_flag] lists every stored row once, newest date first, and
    flags a row exactly when it has the highest id of its key tuple; the
    state is left as it was. *)
Theorem with_active_flag_keyed `{B : Backend} (cls : Model) (now : Z) (st : State) :
  KEY_FIELDS cls ≠ [] → NoDup (row_id <$> table st) →
  ∃ rows flag,
    with_active_flag cls now st = (Ok (Some (annotated flag <$> rows)), st)
    ∧ rows ≡ₚ table st
    ∧ StronglySorted newer_or_equal rows
    ∧ ∀ r, r ∈ table st → (flag r = true ↔ newest_of_key cls (table st) r).
Proof.
  intros Hne Hnd.
  exists (order_by_change_date_desc (table st)),
         (λ r, bool_decide (row_id r ∈ _current_ids_subquery cls (table st))).
  split; [|split; [apply order_by_permutation|split; [apply order_by_sorted|]]].
  - unfold with_active_flag. by rewrite decide_True.
  - intros r Hr. rewrite bool_decide_eq_true. by apply subquery_newest.
Qed.

Lemma with_active_flag_keyed_witness :
  ∃ rows flag,
    (@with_active_flag insertion_order_backend CourseConfig 40
       {| table := [course_row 1 10 "X" true; course_row 2 20 "X" false];
          cache := ∅ |}).1
    = Ok (Some (annotated flag <$> rows))
    ∧ rows ≡ₚ [course_row 1 10 "X" true; course_row 2 20 "X" false].
Proof.
  destruct (@with_active_flag_keyed insertion_order_backend CourseConfig 40
              {| table := [course_row 1 10 "X" true; course_row 2 20 "X" false];
                 cache := ∅ |}) as (rows & flag & Hw & Hperm & _).
  - discriminate.
  - apply (bool_decide_unpack _). vm_compute. exact I.
  - exists rows, flag. rewrite Hw. split; [reflexivity|exact Hperm].
Defined.

(** ** Expiry *)

(** X15. The entry [current] stores on a miss is not served from its expiry
    time [now + cache_timeout] on: a call at or after that time reads the
    table again and returns what the table holds then.  With a
    [cache_timeout] of zero or less this is every later call. *)
Theorem current_entry_expires `{B : Backend} (cls : Model) (args : list value)
    (now now2 : Z) (st : State) (t' : list Row) :
  well_formed cls →
  length args = length (KEY_FIELDS cls) →
  cache_get now (current_key cls args) (cache st) = None →
  now + cache_timeout cls ≤ now2 →
  let c1 := cache (current cls args now st).2 in
  cache_get now2 (current_key cls args) c1 = None
  ∧ (current cls args now2 {| table := t'; cache := c1 |}).1
    = Ok (PInst (resolved cls args t')).
Proof.
  intros Hwf Hlen Hmiss Hlate c1.
  assert (Hconc : Forall (λ k, k ∈ concrete_names cls) (KEY_FIELDS cls)).
  { apply Forall_forall. intros k. by apply well_formed_concrete. }
  assert (Hexp : cache_get now2 (current_key cls args) c1 = None).
  { unfold c1. rewrite current_miss by auto. cbn [snd cache].
    unfold cache_get, cache_set. rewrite lookup_insert_eq. cbn [expires].
    by rewrite decide_False by lia. }
  split; [done|]. by rewrite current_miss by auto.
Qed.

Lemma current_entry_expires_witness :
  (@current insertion_order_backend CourseConfig [VStr "X"] 600
     {| table := [course_row 1 10 "X" true];
        cache := cache (@current insertion_order_backend CourseConfig [VStr "X"] 0
                          empty_state).2 |}).1
  = Ok (PInst (@resolved insertion_order_backend CourseConfig [VStr "X"]
                 [course_row 1 10 "X" true])).
Proof.
  refine (proj2 (@current_entry_expires insertion_order_backend CourseConfig
                   [VStr "X"] 0 600 empty_state [course_row 1 10 "X" true] _ _ _ _)).
  - apply (bool_decide_unpack _). vm_compute. exact I.
  - reflexivity.
  - vm_compute. reflexivity.
  - vm_compute. discriminate.
Defined.

(** ** What is read back is what was saved *)

Lemma from_db_inserted_is_saved (cls : Model) (self : instance) (now : Z)
    (t : list Row) :
  map_Forall (λ k _, k ∈ concrete_names cls) self →
  from_db (insert_row cls (<["id" := VNone]> self) now t) = saved self now t.
Proof.
  intros Hdom. apply map_eq. intros k. unfold saved.
  destruct (decide (k = "id")) as [->|Hid].
  { unfold from_db. cbn [insert_row row_id]. by rewrite !lookup_insert_eq. }
  destruct (decide (k = "change_date")) as [->|Hcd].
  { unfold from_db. cbn [insert_row row_date row_id].
    rewrite !(lookup_insert_ne _ "id") by done. by rewrite !lookup_insert_eq. }
  rewrite !lookup_insert_ne by done.
  destruct (decide (k ∈ concrete_names cls)) as [Hk|Hk].
  - by rewrite from_db_insert_row.
  - unfold from_db, insert_row. cbn [row_id row_date row_cols].
    rewrite !lookup_insert_ne by done.
    destruct (self !! k) as [w|] eqn:Hw; [destruct Hk; by apply (Hdom k w)|].
    apply map_lookup_filter_None_2. left. by rewrite lookup_insert_ne.
Qed.

(** X16. For an instance whose attributes are columns of the subtype and
    whose values are of the kinds these columns store, [current] after
    [save] hands back the object exactly as [save] left it (the written
    values, the fresh id, the write time), provided the write is stamped
    strictly later than the stored rows of its key tuple. *)
Theorem save_then_current_round_trip `{B : Backend} (cls : Model) (self : instance)
    (now now' : Z) (st : State) :
  well_formed cls → typed cls self →
  (∀ r, r ∈ table st → key_of cls r = key_args cls self → row_date r < now) →
  map_Forall (λ k _, k ∈ concrete_names cls) self →
  ∃ self', (save cls self now st).1 = Ok self'
    ∧ (current cls (key_args cls self') now' (save cls self now st).2).1
      = Ok (PInst self').
Proof.
  intros Hwf Ht Hlater Hdom.
  pose proof (typed_has_keys cls self Hwf Ht) as Hkeys.
  exists (saved self now (table st)). split; [by rewrite save_run|].
  rewrite key_args_saved by done.
  rewrite current_after_save_row by done.
  by rewrite from_db_inserted_is_saved.
Qed.

Lemma save_then_current_round_trip_witness :
  ∃ self', (save CourseConfig course_off 20 one_write).1 = Ok self'
    ∧ (@current insertion_order_backend CourseConfig (key_args CourseConfig self') 21
         (save CourseConfig course_off 20 one_write).2).1 = Ok (PInst self').
Proof.
  apply (@save_then_current_round_trip insertion_order_backend CourseConfig course_off
           20 21 one_write).
  - apply (bool_decide_unpack _). vm_compute. exact I.
  - apply (bool_decide_unpack _). vm_compute. exact I.
  - assert (Ht : table one_write = [course_row 1 10 "X" true])
      by (vm_compute; reflexivity).
    intros r Hr _. rewrite Ht in Hr. in_list Hr.
    unfold course_row. cbn [row_date]. lia.
  - apply (bool_decide_unpack _). vm_compute. exact I.
Defined.

(** ** When key strings tell key tuples apart *)

Lemma unicode_plain_inj (l1 l2 : list value) :
  Forall plain_text l1 → Forall plain_text l2 →
  unicode <$> l1 = unicode <$> l2 → l1 = l2.
Proof.
  intros H1. revert l2. induction H1 as [|v1 l1 Hv1 _ IH]; intros l2 H2 Heq.
  - destruct l2; [done|discriminate].
  - destruct H2 as [|v2 l2 Hv2 H2]; [discriminate|].
    injection Heq as Hv Hl. f_equal; [|by apply IH].
    destruct v1, v2; try done. simpl in Hv. by subst.
Qed.

Lemma unicode_plain_comma_free (l : list value) :
  Forall plain_text l → Forall (λ s, has_comma s = false) (unicode <$> l).
Proof.
  induction 1 as [|v l Hv _ IH]; [constructor|].
  rewrite fmap_cons. constructor; [|done]. by destruct v.
Qed.

(** X17. With non-empty [KEY_FIELDS], two argument tuples of comma-free
    text values for which [cache_key_name] builds the same key are the same
    tuple. *)
Theorem cache_key_name_injective (cls : Model) (args1 args2 : list value)
    (key : string) :
  KEY_FIELDS cls ≠ [] →
  Forall plain_text args1 → Forall plain_text args2 →
  cache_key_name cls args1 = Ok key → cache_key_name cls args2 = Ok key →
  args1 = args2.
Proof.
  intros Hne H1 H2 Hk1 Hk2.
  assert (Hl1 : length args1 = length (KEY_FIELDS cls)).
  { by destruct (cache_key_name_Ok_inv _ _ _ Hk1). }
  assert (Hl2 : length args2 = length (KEY_FIELDS cls)).
  { by destruct (cache_key_name_Ok_inv _ _ _ Hk2). }
  apply cache_key_name_inv in Hk1, Hk2. subst key. unfold current_key in Hk2.
  destruct (decide (KEY_FIELDS cls ≠ [])); [|done].
  apply append_inj_l, append_inj_l, append_inj_l in Hk2.
  apply unicode_plain_inj; [done..|]. symmetry.
  apply concat_comma_inj; [by apply unicode_plain_comma_free..| | |done];
    intros Hnil; apply fmap_nil_inv in Hnil; subst; destruct (KEY_FIELDS cls);
    simpl in *; done.
Qed.

Lemma cache_key_name_injective_witness :
  [VStr "Italy"; VStr "c1"] = [VStr "Italy"; VStr "c1"].
Proof.
  apply (cache_key_name_injective Embargo [VStr "Italy"; VStr "c1"]
           [VStr "Italy"; VStr "c1"] "configuration/Embargo/current/Italy,c1").
  - discriminate.
  - repeat constructor.
  - repeat constructor.
  - vm_compute. reflexivity.
  - vm_compute. reflexivity.
Defined.

(** ** [current] and [key_values] keep apart *)

Section separate_entries.
Context `{B : Backend} (cls : Model).

Lemma current_fst (args : list value) (now : Z) (st : State) :
  (current cls args now st).1 = current_result cls args now (table st) (cache st).
Proof.
  unfold current, current_result.
  destruct (cache_key_name cls args) as [key|e]; [|done]. run.
  destruct (cache_get now key (cache st)); [done|].
  unfold objects_filter. destruct (decide (map_Forall _ _)); [|done]. run.
  destruct (order_by_change_date_desc _); [|done].
  by destruct (construct cls _).
Qed.

Lemma key_values_fst (fs : list string) (kwargs : gmap string value) (now : Z)
    (st : State) :
  (key_values cls fs kwargs now st).1
  = key_values_result cls fs kwargs now (table st) (cache st).
Proof.
  unfold key_values, key_values_result.
  destruct (decide (delete "flat" kwargs ≠ ∅)); [done|].
  rewrite key_values_key_default. run.
  destruct (cache_get now _ (cache st)); [done|].
  fold (flat_of kwargs). unfold values_list_distinct. destruct (_ && _); [done|].
  by destruct (decide (Forall _ _)).
Qed.

Lemma current_ext (args : list value) (now : Z) (st1 st2 : State) :
  table st1 = table st2 →
  cache st1 !! current_key cls args = cache st2 !! current_key cls args →
  (current cls args now st1).1 = (current cls args now st2).1.
Proof.
  intros Ht Hc. rewrite !current_fst, Ht. unfold current_result.
  destruct (cache_key_name cls args) as [key|e] eqn:Hk; [|done].
  apply cache_key_name_inv in Hk as ->. cbn [mbind result_bind].
  unfold cache_get. by rewrite Hc.
Qed.

Lemma key_values_ext (fs : list string) (kwargs : gmap string value) (now : Z)
    (st1 st2 : State) :
  table st1 = table st2 →
  cache st1 !! key_values_cache_key_name cls fs
  = cache st2 !! key_values_cache_key_name cls fs →
  (key_values cls fs kwargs now st1).1 = (key_values cls fs kwargs now st2).1.
Proof.
  intros Ht Hc. rewrite !key_values_fst, Ht. unfold key_values_result.
  destruct (decide (delete "flat" kwargs ≠ ∅)); [done|].
  unfold cache_get. rewrite Hc.
  assert (Hvl : ∀ fs' flat c1 c2,
            (values_list_distinct cls fs' flat {| table := table st2; cache := c1 |}).1
            = (values_list_distinct cls fs' flat {| table := table st2; cache := c2 |}).1).
  { intros fs' flat c1 c2. unfold values_list_distinct. destruct (_ && _); [done|].
    by destruct (decide (Forall _ _)). }
  destruct (cache st2 !! key_values_cache_key_name cls fs) as [e|]; [|apply Hvl].
  destruct (decide (now < expires e)); [done|apply Hvl].
Qed.

Lemma current_cache_other (args : list value) (now : Z) (st : State) (k : string) :
  k ≠ current_key cls args →
  cache (current cls args now st).2 !! k = cache st !! k.
Proof.
  intros Hk. unfold current.
  destruct (cache_key_name cls args) as [key|e] eqn:Hkey; [|done].
  apply cache_key_name_inv in Hkey as ->. run.
  destruct (cache_get now _ (cache st)); [done|].
  unfold objects_filter. destruct (decide (map_Forall _ _)); [|done]. run.
  destruct (order_by_change_date_desc _).
  - destruct (construct cls _); [|done]. cbn [snd cache]. unfold cache_set.
    by rewrite lookup_insert_ne.
  - cbn [snd cache]. unfold cache_set. by rewrite lookup_insert_ne.
Qed.

Lemma key_values_cache_other (fs : list string) (kwargs : gmap string value)
    (now : Z) (st : State) (k : string) :
  k ≠ key_values_cache_key_name cls fs →
  cache (key_values cls fs kwargs now st).2 !! k = cache st !! k.
Proof.
  intros Hk. unfold key_values.
  destruct (decide (delete "flat" kwargs ≠ ∅)); [done|].
  rewrite key_values_key_default. run.
  destruct (cache_get now _ (cache st)); [done|].
  unfold values_list_distinct. destruct (_ && _); [done|].
  destruct (decide (Forall _ _)); [|done]. run. cbn [snd cache]. unfold cache_set.
  by rewrite lookup_insert_ne.
Qed.

(** X18. The two kinds of cache entry do not interfere: a [key_values] call,
    whatever its arguments and outcome, does not change what a following
    [current] returns, and a [current] call does not change what a following
    [key_values] returns. *)
Theorem current_and_key_values_independent (args : list value) (fs : list string)
    (kwargs : gmap string value) (now now' : Z) (st : State) :
  (current cls args now' (key_values cls fs kwargs now st).2).1
  = (current cls args now' st).1
  ∧ (key_values cls fs kwargs now' (current cls args now st).2).1
    = (key_values cls fs kwargs now' st).1.
Proof.
  split.
  - apply current_ext; [apply key_values_table|].
    apply key_values_cache_other, current_key_ne_key_values_key.
  - apply key_values_ext; [apply current_table|].
    apply current_cache_other. intros H. symmetry in H.
    by apply current_key_ne_key_values_key in H.
Qed.

End separate_entries.

(** ** Writes and the entries they do not touch *)

(** X19. For a subtype without [KEY_FIELDS], [save] does not delete the
    [key_values] entry: a listing cached before the write is still returned
    after it, while it is live, although the table has a new row. *)
Theorem unkeyed_save_keeps_key_values (cls : Model) (self : instance)
    (kwargs : gmap string value) (now now' : Z) (st : State) (v : pyobj) :
  KEY_FIELDS cls = [] → delete "flat" kwargs = ∅ →
  cache_get now' (key_values_cache_key_name cls []) (cache st) = Some v →
  key_values cls [] kwargs now' (save cls self now st).2
  = (Ok v, (save cls self now st).2)
  ∧ table (save cls self now st).2
    = table st ++ [insert_row cls (<["id" := VNone]> self) now (table st)].
Proof.
  intros He Hkw Hhit. split; [|apply save_table].
  apply key_values_hit; [done|].
  rewrite save_run by (rewrite He; constructor). cbn [snd cache].
  unfold evicted. rewrite decide_False by (by intros []).
  unfold cache_get in *. rewrite lookup_delete_ne; [done|].
  apply current_key_ne_key_values_key.
Qed.

Lemma unkeyed_save_keeps_key_values_witness :
  key_values SiteConfig [] ∅ 20
    (save SiteConfig (defaults SiteConfig) 10
       (key_values SiteConfig [] ∅ 0 empty_state).2).2
  = (Ok (PTuples []),
     (save SiteConfig (defaults SiteConfig) 10
        (key_values SiteConfig [] ∅ 0 empty_state).2).2).
Proof.
  refine (proj1 (unkeyed_save_keeps_key_values SiteConfig (defaults SiteConfig) ∅ 10 20
                   (key_values SiteConfig [] ∅ 0 empty_state).2 (PTuples []) _ _ _)).
  - reflexivity.
  - vm_compute. reflexivity.
  - vm_compute. reflexivity.
Defined.



(** X21. Without [KEY_FIELDS], when no entry is cached, ids are distinct and
    a higher id always comes with a strictly later date, [with_active_flag]
    on a non-empty table lists every stored row once and flags exactly one:
    the row with the highest id, the one [current()] returns. *)
Theorem with_active_flag_unkeyed `{B : Backend} (cls : Model) (now : Z) (st : State)
    (r0 : Row) :
  KEY_FIELDS cls = [] →
  cache_get now (current_key cls []) (cache st) = None →
  NoDup (row_id <$> table st) →
  (∀ r1 r2, r1 ∈ table st → r2 ∈ table st →
            row_id r1 < row_id r2 → row_date r1 < row_date r2) →
  r0 ∈ table st →
  ∃ rows flag r,
    (with_active_flag cls now st).1 = Ok (Some (annotated flag <$> rows))
    ∧ rows ≡ₚ table st
    ∧ (current cls [] now st).1 = Ok (PInst (from_db r))
    ∧ r ∈ table st
    ∧ (∀ r', r' ∈ table st → row_id r' ≤ row_id r)
    ∧ (∀ r', r' ∈ table st → (flag r' = true ↔ r' = r)).
Proof.
  intros He Hmiss Hnd Hmono Hr0.
  assert (Hwf : well_formed cls).
  { split; rewrite He; constructor. }
  assert (Hkey : ∀ r, key_of cls r = []) by (intros r; unfold key_of; by rewrite He).
  destruct (resolved_latest cls [] (table st) r0) as (r & Hr & _ & Hres & Hlatest);
    [done|by rewrite He|done|done|].
  assert (Hconc : Forall (λ k, k ∈ concrete_names cls) (KEY_FIELDS cls))
    by (rewrite He; constructor).
  assert (Hcur : (current cls [] now st).1 = Ok (PInst (from_db r))).
  { rewrite current_miss by (done || by left). cbn [fst]. by rewrite Hres. }
  assert (Hmax : ∀ r', r' ∈ table st → key_of cls r' = [] → r' ≠ r →
                       row_id r' < row_id r).
  { apply latest_is_max_id; try done. intros r1 r2 H1 H2 _ _. by apply Hmono. }
  exists (order_by_change_date_desc (table st)),
         (λ r', bool_decide (row_id r' = row_id r)), r.
  split; [|split; [apply order_by_permutation|split; [done|split; [done|split]]]].
  - unfold with_active_flag. rewrite decide_False by (by intros []). run.
    rewrite current_miss in Hcur by (done || by left).
    rewrite current_miss by (done || by left).
    cbn [fst] in Hcur. injection Hcur as Hcur. rewrite Hcur.
    cbn [attr_of]. unfold getattr, from_db. by rewrite lookup_insert_eq.
  - intros r' Hr'. destruct (decide (r' = r)) as [->|Hne]; [done|].
    apply Z.lt_le_incl. by apply Hmax.
  - intros r' Hr'. rewrite bool_decide_eq_true. split; [|by intros ->].
    intros Hid. by eapply (NoDup_fmap_eq row_id).
Qed.

Lemma with_active_flag_unkeyed_witness :
  ∃ rows flag r,
    (@with_active_flag insertion_order_backend SiteConfig 30
       {| table := [{| row_id := 1; row_date := 10; row_cols := defaults SiteConfig |};
                    {| row_id := 2; row_date := 20; row_cols := defaults SiteConfig |}];
          cache := ∅ |}).1
    = Ok (Some (annotated flag <$> rows))
    ∧ flag r = true.
Proof.
  destruct (@with_active_flag_unkeyed insertion_order_backend SiteConfig 30
              {| table := [{| row_id := 1; row_date := 10;
                              row_cols := defaults SiteConfig |};
                           {| row_id := 2; row_date := 20;
                              row_cols := defaults SiteConfig |}];
                 cache := ∅ |}
              {| row_id := 1; row_date := 10; row_cols := defaults SiteConfig |})
    as (rows & flag & r & Hw & _ & _ & Hr & _ & Hflag).
  - reflexivity.
  - vm_compute. reflexivity.
  - apply (bool_decide_unpack _). vm_compute. exact I.
  - intros r1 r2 H1 H2. cbn [table] in H1, H2.
    in_list H1; in_list H2; cbn [row_id row_date]; lia.
  - cbn [table]. left.
  - exists rows, flag, r. split; [exact Hw|]. by apply Hflag.
Defined.
